(** * Boids: the per-tick force model, the integrator and the field sampler

    Shallow embedding of [src/main8.py] (the last of the eight evolutions of
    the simulation).  Python floats are read as real numbers; operations
    that raise in Python ([Vector2.normalize] of a zero vector, a division
    by zero) raise here as well, so every function that can fault returns a
    [result].  The coherent-noise function [noise.pnoise1] belongs to an
    external library and is a parameter of the development.  The module
    level constants of the script are gathered in a [Config] record whose
    instance [main8] holds the values written in the file. *)

From Stdlib Require Import Reals Lra Psatz ZArith Lia.
From stdpp Require Import base list.

Open Scope R_scope.

(** ** Exceptions *)

Inductive exn : Type :=
| ValueError
| ZeroDivisionError.

Inductive result (A : Type) : Type :=
| Ok (a : A)
| Raise (e : exn).

Arguments Ok {A} a.
Arguments Raise {A} e.

Definition bind {A B : Type} (c : result A) (k : A -> result B) : result B :=
  match c with
  | Ok a => k a
  | Raise e => Raise e
  end.

Notation "'let*' x ':=' c 'in' k" := (bind c (fun x => k))
  (at level 10, x name, c at level 100, k at level 200).

(** ** Float comparisons and conversions *)

Definition flt (a b : R) : bool := if Rlt_dec a b then true else false.
Definition fgt (a b : R) : bool := if Rgt_dec a b then true else false.
Definition fne (a b : R) : bool := if Req_dec_T a b then false else true.

(** [a / b] on Python numbers. *)
Definition fdiv (a b : R) : result R :=
  if fne b 0 then Ok (a / b) else Raise ZeroDivisionError.

(** [int(a)]: truncation toward zero. *)
Definition int (a : R) : Z :=
  if Rle_dec 0 a then Int_part a else (- Int_part (- a))%Z.

(** ** pygame.Vector2 *)

Module Vector2.

Record t : Type := mk { x : R; y : R }.

Definition zero : t := mk 0 0.
Definition add (a b : t) : t := mk (x a + x b) (y a + y b).
Definition sub (a b : t) : t := mk (x a - x b) (y a - y b).
Definition mul (a : t) (k : R) : t := mk (x a * k) (y a * k).
Definition dot (a b : t) : R := x a * x b + y a * y b.
Definition length (a : t) : R := sqrt (x a * x a + y a * y a).

Definition distance_to (a b : t) : R :=
  sqrt ((x b - x a) * (x b - x a) + (y b - y a) * (y b - y a)).

(** [a / k] raises ZeroDivisionError when [k] is zero. *)
Definition div (a : t) (k : R) : result t :=
  if fne k 0 then Ok (mk (x a / k) (y a / k)) else Raise ZeroDivisionError.

(** [a.normalize()] raises ValueError on a vector of length zero. *)
Definition normalize (a : t) : result t :=
  if fne (length a) 0
  then Ok (mk (x a / length a) (y a / length a))
  else Raise ValueError.

End Vector2.

Abbreviation Vec2 := Vector2.t.

(** ** Configuration: the module-level constants *)

Record Config : Type := {
  SCREEN_WIDTH : R;
  SCREEN_HEIGHT : R;
  START_SPEED : R;
  MAX_SPEED : R;
  PERCEPTION_RADIUS : R;
  SEPARATION_RADIUS : R;
  RANDOMNESS_WEIGHT : R;
  MASS_EQUIVALENT : R;
  TURN_FACTOR : R;
  SPEED_ADJUSTMENT_FACTOR : R;
  ATTRACTOR_FORCE : R;
  ATTRACTOR_FORCE_MAX : R;
  ATTRACTOR_FORCE_DISTANCE_EXP : Z;
  PROXIMITY_NORMALIZATION : R;
  BASE_COLOR : Z * Z * Z;
  ATTRACTOR_COLOR_FACTOR : R;
  BG_SCALE : R
}.

Definition BOUNDARY_PERCEPTION (cfg : Config) : R := PERCEPTION_RADIUS cfg.
Definition ACCELERATION_UPPER_EXPECTED (cfg : Config) : R := MAX_SPEED cfg / 10.

(** The constants as written in main8.py.  The script replaces the screen
    dimensions by those of the monitor at start-up; the literal values stand
    here and no result below depends on them beyond the stated hypotheses. *)
Definition main8 : Config := {|
  SCREEN_WIDTH := 1500;
  SCREEN_HEIGHT := 1000;
  START_SPEED := 2.25;
  MAX_SPEED := 5;
  PERCEPTION_RADIUS := 30;
  SEPARATION_RADIUS := 40;
  RANDOMNESS_WEIGHT := 0.225;
  MASS_EQUIVALENT := 2;
  TURN_FACTOR := 0.0325;
  SPEED_ADJUSTMENT_FACTOR := 0.3;
  ATTRACTOR_FORCE := 10;
  ATTRACTOR_FORCE_MAX := 20;
  ATTRACTOR_FORCE_DISTANCE_EXP := (-1);
  PROXIMITY_NORMALIZATION := 5;
  BASE_COLOR := (50, 50, 50)%Z;
  ATTRACTOR_COLOR_FACTOR := 2;
  BG_SCALE := 0.25
|}.

(** ** Colours *)

Definition clamp_color (color : Z) : Z := Z.max 0 (Z.min 255 color).

Definition clamp_colors (r g b : Z) : Z * Z * Z :=
  (clamp_color r, clamp_color g, clamp_color b).

Definition get_color (base_value : Z) (factor : R) : Z :=
  (base_value + int (IZR (255 - base_value) * factor))%Z.

(** ** Agents *)

Record Boid : Type := {
  position : Vec2;
  velocity : Vec2;
  acceleration : Vec2;
  color : Z * Z * Z;
  cohesion_weight : R;
  alignment_weight : R;
  separation_weight : R;
  noise_offset_x : R;
  noise_offset_y : R
}.

Definition set_position (b : Boid) (p : Vec2) : Boid :=
  {| position := p; velocity := velocity b; acceleration := acceleration b;
     color := color b; cohesion_weight := cohesion_weight b;
     alignment_weight := alignment_weight b;
     separation_weight := separation_weight b;
     noise_offset_x := noise_offset_x b; noise_offset_y := noise_offset_y b |}.

Definition set_velocity (b : Boid) (v : Vec2) : Boid :=
  {| position := position b; velocity := v; acceleration := acceleration b;
     color := color b; cohesion_weight := cohesion_weight b;
     alignment_weight := alignment_weight b;
     separation_weight := separation_weight b;
     noise_offset_x := noise_offset_x b; noise_offset_y := noise_offset_y b |}.

Definition set_acceleration (b : Boid) (a : Vec2) : Boid :=
  {| position := position b; velocity := velocity b; acceleration := a;
     color := color b; cohesion_weight := cohesion_weight b;
     alignment_weight := alignment_weight b;
     separation_weight := separation_weight b;
     noise_offset_x := noise_offset_x b; noise_offset_y := noise_offset_y b |}.

Definition set_color (b : Boid) (c : Z * Z * Z) : Boid :=
  {| position := position b; velocity := velocity b;
     acceleration := acceleration b;
     color := c; cohesion_weight := cohesion_weight b;
     alignment_weight := alignment_weight b;
     separation_weight := separation_weight b;
     noise_offset_x := noise_offset_x b; noise_offset_y := noise_offset_y b |}.

Definition set_noise_offsets (b : Boid) (ox oy : R) : Boid :=
  {| position := position b; velocity := velocity b;
     acceleration := acceleration b;
     color := color b; cohesion_weight := cohesion_weight b;
     alignment_weight := alignment_weight b;
     separation_weight := separation_weight b;
     noise_offset_x := ox; noise_offset_y := oy |}.

(** [self.acceleration += v] *)
Definition accelerate (b : Boid) (v : Vec2) : Boid :=
  set_acceleration b (Vector2.add (acceleration b) v).

(** The three accumulators and the neighbour count of [Boid.apply_rules]. *)
Record Flock : Type := {
  separation : Vec2;
  alignment : Vec2;
  cohesion : Vec2;
  total : nat
}.

Definition no_flock : Flock :=
  {| separation := Vector2.zero; alignment := Vector2.zero;
     cohesion := Vector2.zero; total := 0 |}.

(** ** The simulation, for a configuration and a noise function *)

Section Simulation.

Variable cfg : Config.

(** [noise.pnoise1], the one-dimensional coherent noise of the external
    [noise] package. *)
Variable pnoise1 : R -> R.

(** *** Flocking: Boid.apply_rules *)

(** One iteration of the neighbour scan.  The population is a list that
    holds each agent once, so the identity test [boid == self] is the
    equality of the list indices [j] and [i]. *)
Definition rules_step (self : Boid) (i j : nat) (boid : Boid) (acc : Flock)
  : result Flock :=
  if Nat.eqb j i then Ok acc
  else
    let distance := Vector2.distance_to (position self) (position boid) in
    if flt distance (PERCEPTION_RADIUS cfg) then
      let* separation' :=
        (if flt distance (SEPARATION_RADIUS cfg) then
           let diff := Vector2.sub (position self) (position boid) in
           let* unit := Vector2.normalize diff in
           let* push := Vector2.div unit distance in
           Ok (Vector2.add (separation acc) push)
         else Ok (separation acc)) in
      Ok {| separation := separation';
            alignment := Vector2.add (alignment acc) (velocity boid);
            cohesion := Vector2.add (cohesion acc) (position boid);
            total := S (total acc) |}
    else Ok acc.

Fixpoint rules_loop (self : Boid) (i j : nat) (boids : list Boid)
  (acc : Flock) : result Flock :=
  match boids with
  | [] => Ok acc
  | boid :: rest =>
      let* acc' := rules_step self i j boid acc in
      rules_loop self i (S j) rest acc'
  end.

Definition apply_rules (boids : list Boid) (i : nat) (self : Boid)
  : result Boid :=
  let* acc := rules_loop self i 0 boids no_flock in
  if Nat.ltb 0 (total acc) then
    let self := accelerate self
                  (Vector2.mul (separation acc) (separation_weight self)) in
    let* mean_velocity := Vector2.div (alignment acc) (INR (total acc)) in
    let self := accelerate self
                  (Vector2.mul mean_velocity (alignment_weight self)) in
    let* centre := Vector2.div (cohesion acc) (INR (total acc)) in
    let* heading := Vector2.normalize (Vector2.sub centre (position self)) in
    Ok (accelerate self (Vector2.mul heading (cohesion_weight self)))
  else Ok self.

(** *** Boundaries: Boid.avoid_edges *)

Definition edge_force (p : Vec2) : Vec2 :=
  let margin := BOUNDARY_PERCEPTION cfg in
  let fx :=
    if flt (Vector2.x p) margin then
      TURN_FACTOR cfg * (margin - Vector2.x p)
    else if fgt (Vector2.x p) (SCREEN_WIDTH cfg - margin) then
      - TURN_FACTOR cfg * (Vector2.x p - (SCREEN_WIDTH cfg - margin))
    else 0 in
  let fy :=
    if flt (Vector2.y p) margin then
      TURN_FACTOR cfg * (margin - Vector2.y p)
    else if fgt (Vector2.y p) (SCREEN_HEIGHT cfg - margin) then
      - TURN_FACTOR cfg * (Vector2.y p - (SCREEN_HEIGHT cfg - margin))
    else 0 in
  Vector2.mk fx fy.

Definition avoid_edges (self : Boid) : Boid :=
  accelerate self (edge_force (position self)).

(** *** Noise: Boid.add_noise *)

Definition add_noise (self : Boid) : Boid :=
  let nx := pnoise1 (noise_offset_x self) in
  let ny := pnoise1 (noise_offset_y self) in
  let self := accelerate self
                (Vector2.mul (Vector2.mk nx ny) (RANDOMNESS_WEIGHT cfg)) in
  set_noise_offsets self (noise_offset_x self + 0.01)
                         (noise_offset_y self + 0.01).

(** *** Attractors: Boid.apply_attractors *)

Definition attractor_step (self : Boid) (attractor : Vec2) : result Boid :=
  let direction := Vector2.sub attractor (position self) in
  if fne (Vector2.length direction) 0 then
    let* pull :=
      fdiv (ATTRACTOR_FORCE cfg
            * powerRZ (Vector2.length direction)
                      (ATTRACTOR_FORCE_DISTANCE_EXP cfg))
           (MASS_EQUIVALENT cfg) in
    let pull := Rmin pull (ATTRACTOR_FORCE_MAX cfg) in
    let* unit := Vector2.normalize direction in
    Ok (accelerate self (Vector2.mul unit pull))
  else Ok self.

Fixpoint apply_attractors (self : Boid) (attractors : list Vec2)
  : result Boid :=
  match attractors with
  | [] => Ok self
  | attractor :: rest =>
      let* self' := attractor_step self attractor in
      apply_attractors self' rest
  end.

(** *** Colour: Boid.update_color *)

Definition proximity_step (self : Boid) (i j : nat) (boid : Boid)
  (proximity : R) : R :=
  if Nat.eqb j i then proximity
  else
    let distance := Vector2.distance_to (position self) (position boid) in
    if flt distance (PERCEPTION_RADIUS cfg)
    then proximity + (PERCEPTION_RADIUS cfg - distance)
    else proximity.

Fixpoint proximity_loop (self : Boid) (i j : nat) (boids : list Boid)
  (proximity : R) : R :=
  match boids with
  | [] => proximity
  | boid :: rest =>
      proximity_loop self i (S j) rest (proximity_step self i j boid proximity)
  end.

Definition update_color (boids : list Boid) (i : nat) (self : Boid)
  : result Boid :=
  let proximity := proximity_loop self i 0 boids 0 in
  let* q := fdiv proximity (PERCEPTION_RADIUS cfg) in
  let* proximity_factor := fdiv q (PROXIMITY_NORMALIZATION cfg) in
  let* a := fdiv (Vector2.length (acceleration self))
                 (ACCELERATION_UPPER_EXPECTED cfg) in
  let* a := fdiv a (MAX_SPEED cfg) in
  let acceleration_factor := (a * 3) ^ 3 in
  let '(r, g, b) := BASE_COLOR cfg in
  Ok (set_color self
        (clamp_colors (get_color r acceleration_factor) g
                      (get_color b proximity_factor))).

(** *** Integrator: the body of Boid.update *)

(** Speed cap and speed relaxation (the two [if]s on [speed]); [speed] is
    measured once, before the cap. *)
Definition regulate_speed (v : Vec2) : result Vec2 :=
  let speed := Vector2.length v in
  let* v :=
    (if fgt speed (MAX_SPEED cfg) then
       let* unit := Vector2.normalize v in
       Ok (Vector2.mul unit (MAX_SPEED cfg))
     else Ok v) in
  if fne speed 0 then
    let new_speed :=
      speed + (START_SPEED cfg - speed) * SPEED_ADJUSTMENT_FACTOR cfg in
    let* unit := Vector2.normalize v in
    Ok (Vector2.mul unit new_speed)
  else Ok v.

(** Inertia, speed regulation and position advance. *)
Definition move (self : Boid) : result Boid :=
  let* dv := Vector2.div (acceleration self) (MASS_EQUIVALENT cfg) in
  let* v := regulate_speed (Vector2.add (velocity self) dv) in
  let self := set_velocity self v in
  Ok (set_position self (Vector2.add (position self) (velocity self))).

(** Slight damping for smoother motion. *)
Definition damp (self : Boid) : Boid :=
  set_velocity self (Vector2.mul (velocity self) 0.95).

(** The four force models, in the order of the calls. *)
Definition forces (boids : list Boid) (attractors : list Vec2) (i : nat)
  (self : Boid) : result Boid :=
  let self := set_acceleration self Vector2.zero in
  let* self := apply_rules boids i self in
  let self := avoid_edges self in
  let self := add_noise self in
  apply_attractors self attractors.

(** [self.update(boids, attractors)] for the agent at index [i]. *)
Definition update_boid (boids : list Boid) (attractors : list Vec2)
  (i : nat) (self : Boid) : result Boid :=
  let* self := forces boids attractors i self in
  let* self := move self in
  let* self := update_color boids i self in
  Ok (damp self).

(** *** The sweep of the main loop

    [for boid in boids: boid.update(boids, attractors)].  The agents are
    objects mutated in place: the store is the list of their current
    states and an update overwrites the state at its index. *)
Definition update (boids : list Boid) (attractors : list Vec2) (i : nat)
  : result (list Boid) :=
  match boids !! i with
  | Some self =>
      let* self' := update_boid boids attractors i self in
      Ok (<[i := self']> boids)
  | None => Ok boids
  end.

Fixpoint sweep (indices : list nat) (boids : list Boid)
  (attractors : list Vec2) : result (list Boid) :=
  match indices with
  | [] => Ok boids
  | i :: rest =>
      let* boids' := update boids attractors i in
      sweep rest boids' attractors
  end.

Definition tick (boids : list Boid) (attractors : list Vec2)
  : result (list Boid) :=
  sweep (seq 0 (length boids)) boids attractors.

End Simulation.

(** ** The snapshot sweep

    The reading of the tick in which every agent is updated against the
    states all agents had when the tick began. *)

Fixpoint snapshot_loop (cfg : Config) (pnoise1 : R -> R) (snapshot : list Boid)
  (attractors : list Vec2) (j : nat) (todo : list Boid) : result (list Boid) :=
  match todo with
  | [] => Ok []
  | self :: rest =>
      let* self' := update_boid cfg pnoise1 snapshot attractors j self in
      let* rest' := snapshot_loop cfg pnoise1 snapshot attractors (S j) rest in
      Ok (self' :: rest')
  end.

Definition tick_snapshot (cfg : Config) (pnoise1 : R -> R) (boids : list Boid)
  (attractors : list Vec2) : result (list Boid) :=
  snapshot_loop cfg pnoise1 boids attractors 0 boids.

(** ** The in-order reading of the sweep

    Agent [j] is updated against the agents before it as already updated
    ([done]) and itself and the agents after it as the previous tick left
    them ([todo]). *)

Fixpoint in_order_loop (cfg : Config) (pnoise1 : R -> R)
  (attractors : list Vec2) (done todo : list Boid) : result (list Boid) :=
  match todo with
  | [] => Ok done
  | self :: rest =>
      let* self' :=
        update_boid cfg pnoise1 (done ++ self :: rest) attractors
                    (length done) self in
      in_order_loop cfg pnoise1 attractors (done ++ [self']) rest
  end.

(** ** Field sampler: compute_background_surface *)

(** [np.linspace(start, stop, num)] *)
Definition linspace (start stop : R) (num : nat) : list R :=
  map (fun k => start + INR k * ((stop - start) / (INR num - 1))) (seq 0 num).

Section Sampler.

Variable cfg : Config.

(** The loop body at one grid point [(gx, gy)]: the pull of one attractor is
    added to the net force [(net_fx, net_fy)]. *)
Definition sample_step (gx gy : R) (net : R * R) (attractor : Vec2) : R * R :=
  let ax := Vector2.x attractor in
  let ay := Vector2.y attractor in
  let dx := ax - gx in
  let dy := ay - gy in
  let dist := sqrt (dx ^ 2 + dy ^ 2) in
  let dist := Rmax dist 1e-5 in
  let force := ATTRACTOR_FORCE cfg
               * powerRZ dist (ATTRACTOR_FORCE_DISTANCE_EXP cfg) in
  let force := Rmin force (ATTRACTOR_FORCE_MAX cfg) in
  let nx := dx / dist in
  let ny := dy / dist in
  (fst net + nx * force, snd net + ny * force).

(** Brightness of the cell at [(gx, gy)], a value of type uint8. *)
Definition cell_brightness (attractors : list Vec2) (gx gy : R) : Z :=
  let '(net_fx, net_fy) := fold_left (sample_step gx gy) attractors (0, 0) in
  let net_force := sqrt (net_fx ^ 2 + net_fy ^ 2) in
  let brightness :=
    net_force / ATTRACTOR_FORCE_MAX cfg * ATTRACTOR_COLOR_FACTOR cfg * 255 in
  int (Rmin (Rmax brightness 0) 255).

(** The low-resolution brightness grid, of shape (bg_height, bg_width); the
    three colour channels of the surface are copies of it. *)
Definition compute_background_surface (attractors : list Vec2)
  : list (list Z) :=
  let bg_width := int (SCREEN_WIDTH cfg * BG_SCALE cfg) in
  let bg_height := int (SCREEN_HEIGHT cfg * BG_SCALE cfg) in
  let xs := linspace 0 (SCREEN_WIDTH cfg) (Z.to_nat bg_width) in
  let ys := linspace 0 (SCREEN_HEIGHT cfg) (Z.to_nat bg_height) in
  map (fun gy => map (fun gx => cell_brightness attractors gx gy) xs) ys.

End Sampler.

(** ** Notions used in the statements *)

(** The unit vector of a non-zero vector. *)
Definition unit_of (v : Vec2) : Vec2 :=
  Vector2.mk (Vector2.x v / Vector2.length v) (Vector2.y v / Vector2.length v).

(** The velocity after the inertia update. *)
Definition inertia (cfg : Config) (self : Boid) : Vec2 :=
  Vector2.add (velocity self)
    (Vector2.mk (Vector2.x (acceleration self) / MASS_EQUIVALENT cfg)
                (Vector2.y (acceleration self) / MASS_EQUIVALENT cfg)).

(** The speed the relaxation aims at, from the speed measured before the
    cap. *)
Definition relaxed (cfg : Config) (speed : R) : R :=
  speed + (START_SPEED cfg - speed) * SPEED_ADJUSTMENT_FACTOR cfg.

(** The cells of a grid. *)
Definition cell_of (grid : list (list Z)) (b : Z) : Prop :=
  exists row : list Z, In row grid /\ In b row.

(** ** Scenarios *)

(** [Boid.__init__] draws the position, the heading, the three weights and
    the noise offsets at random; [new_boid] fixes the weights at the global
    defaults (COHESION_WEIGHT = 0.4, ALIGNMENT_WEIGHT = 0.2,
    SEPARATION_WEIGHT = 3, all inside the jitter interval) and the noise
    offsets at zero. *)
Definition new_boid (p v : Vec2) : Boid :=
  {| position := p; velocity := v; acceleration := Vector2.zero;
     color := (0, 0, 0)%Z;
     cohesion_weight := 0.4; alignment_weight := 0.2; separation_weight := 3;
     noise_offset_x := 0; noise_offset_y := 0 |}.

(** The configuration of the attractor scenario: main8 with a unit mass
    equivalent and ATTRACTOR_FORCE_MAX = 30. *)
Definition attractor_scenario : Config := {|
  SCREEN_WIDTH := SCREEN_WIDTH main8;
  SCREEN_HEIGHT := SCREEN_HEIGHT main8;
  START_SPEED := START_SPEED main8;
  MAX_SPEED := MAX_SPEED main8;
  PERCEPTION_RADIUS := PERCEPTION_RADIUS main8;
  SEPARATION_RADIUS := SEPARATION_RADIUS main8;
  RANDOMNESS_WEIGHT := RANDOMNESS_WEIGHT main8;
  MASS_EQUIVALENT := 1;
  TURN_FACTOR := TURN_FACTOR main8;
  SPEED_ADJUSTMENT_FACTOR := SPEED_ADJUSTMENT_FACTOR main8;
  ATTRACTOR_FORCE := 10;
  ATTRACTOR_FORCE_MAX := 30;
  ATTRACTOR_FORCE_DISTANCE_EXP := (-1);
  PROXIMITY_NORMALIZATION := PROXIMITY_NORMALIZATION main8;
  BASE_COLOR := BASE_COLOR main8;
  ATTRACTOR_COLOR_FACTOR := ATTRACTOR_COLOR_FACTOR main8;
  BG_SCALE := BG_SCALE main8
|}.

(** The configuration of the relaxation scenario: main8 with
    START_SPEED = 2. *)
Definition relaxation_scenario : Config := {|
  SCREEN_WIDTH := SCREEN_WIDTH main8;
  SCREEN_HEIGHT := SCREEN_HEIGHT main8;
  START_SPEED := 2;
  MAX_SPEED := 5;
  PERCEPTION_RADIUS := PERCEPTION_RADIUS main8;
  SEPARATION_RADIUS := SEPARATION_RADIUS main8;
  RANDOMNESS_WEIGHT := RANDOMNESS_WEIGHT main8;
  MASS_EQUIVALENT := MASS_EQUIVALENT main8;
  TURN_FACTOR := TURN_FACTOR main8;
  SPEED_ADJUSTMENT_FACTOR := 0.3;
  ATTRACTOR_FORCE := ATTRACTOR_FORCE main8;
  ATTRACTOR_FORCE_MAX := ATTRACTOR_FORCE_MAX main8;
  ATTRACTOR_FORCE_DISTANCE_EXP := ATTRACTOR_FORCE_DISTANCE_EXP main8;
  PROXIMITY_NORMALIZATION := PROXIMITY_NORMALIZATION main8;
  BASE_COLOR := BASE_COLOR main8;
  ATTRACTOR_COLOR_FACTOR := ATTRACTOR_COLOR_FACTOR main8;
  BG_SCALE := BG_SCALE main8
|}.

(** The coincident pair and the symmetric triple of the main8 world. *)
Definition coincident_pair : list Boid :=
  [new_boid (Vector2.mk 100 100) (Vector2.mk 1 0);
   new_boid (Vector2.mk 100 100) (Vector2.mk 0 1)].

Definition symmetric_triple : list Boid :=
  [new_boid (Vector2.mk 100 100) (Vector2.mk 1 0);
   new_boid (Vector2.mk 90 100) (Vector2.mk 0 1);
   new_boid (Vector2.mk 110 100) (Vector2.mk 0 1)].

(** An agent of the main8 world cruising at START_SPEED a quarter of a unit
    to the left of the attractor placed at (100,100). *)
Definition chaser : Boid :=
  new_boid (Vector2.mk 99.75 100) (Vector2.mk 2.25 0).

(** [rear] and [front] fly to the right at START_SPEED on the line y = 100
    of the main8 world, exactly PERCEPTION_RADIUS apart, so at the start of
    the tick neither perceives the other.  [rear] comes first in the
    population. *)
Definition rear : Boid := new_boid (Vector2.mk 100 100) (Vector2.mk 2.25 0).
Definition front : Boid := new_boid (Vector2.mk 130 100) (Vector2.mk 2.25 0).

(** ** Set-up: the constants and the random draws of start-up *)

(** The module-level constants that only the constructors read. *)
Record Setup : Type := {
  NUM_BOIDS : nat;
  COHESION_WEIGHT : R;
  ALIGNMENT_WEIGHT : R;
  SEPARATION_WEIGHT : R;
  ATTRACTOR_INIT : bool;
  ATTRACTOR_INIT_NUM : nat;
  ATTRACTOR_INIT_SEED : Z;
  ATTRACTOR_INIT_MARGIN : R
}.

Definition main8_setup : Setup := {|
  NUM_BOIDS := 100;
  COHESION_WEIGHT := 0.4;
  ALIGNMENT_WEIGHT := 0.2;
  SEPARATION_WEIGHT := 3;
  ATTRACTOR_INIT := true;
  ATTRACTOR_INIT_NUM := 10;
  ATTRACTOR_INIT_SEED := 42;
  ATTRACTOR_INIT_MARGIN := 100
|}.

(** The state of Python's global generator: the values [random.random()]
    is still to return, and how many of them have been taken. *)
Record Rng : Type := { draws : nat -> R; cursor : nat }.

(** [random.random()] *)
Definition random (g : Rng) : R * Rng :=
  (draws g (cursor g), {| draws := draws g; cursor := S (cursor g) |}).

(** [random.uniform(a, b)], which is [a + (b - a) * random()]. *)
Definition uniform (a b : R) (g : Rng) : R * Rng :=
  let '(u, g) := random g in (a + (b - a) * u, g).

(** The outcome of a function that starts with an [assert]. *)
Inductive asserted (A : Type) : Type :=
| Passed (a : A)
| AssertionError.

Arguments Passed {A} a.
Arguments AssertionError {A}.

Section Setup.

Variable cfg : Config.
Variable setup : Setup.

(** [mersenne s] is the sequence [random.random()] returns after
    [random.seed(s)]. *)
Variable mersenne : Z -> nat -> R.

(** [random.seed(s)] *)
Definition seed (s : Z) : Rng := {| draws := mersenne s; cursor := 0 |}.

(** The list comprehension of [initialize_attractors]. *)
Fixpoint draw_attractors (n : nat) (g : Rng) : list Vec2 * Rng :=
  match n with
  | O => ([], g)
  | S n =>
      let '(ax, g) :=
        uniform (ATTRACTOR_INIT_MARGIN setup)
                (SCREEN_WIDTH cfg - ATTRACTOR_INIT_MARGIN setup) g in
      let '(ay, g) :=
        uniform (ATTRACTOR_INIT_MARGIN setup)
                (SCREEN_HEIGHT cfg - ATTRACTOR_INIT_MARGIN setup) g in
      let '(rest, g) := draw_attractors n g in
      (Vector2.mk ax ay :: rest, g)
  end.

Definition initialize_attractors (g : Rng) : asserted (list Vec2 * Rng) :=
  if ATTRACTOR_INIT setup then
    let g := seed (ATTRACTOR_INIT_SEED setup) in
    Passed (draw_attractors (ATTRACTOR_INIT_NUM setup) g)
  else AssertionError.

(** [Boid()]: the constructor, with the draws in the order of the
    assignments. *)
Definition Boid_init (g : Rng) : Boid * Rng :=
  let '(px, g) := uniform 0 (SCREEN_WIDTH cfg) g in
  let '(py, g) := uniform 0 (SCREEN_HEIGHT cfg) g in
  let '(angle, g) := uniform 0 (2 * PI) g in
  let '(c, g) := uniform 0.8 1.2 g in
  let '(a, g) := uniform 0.8 1.2 g in
  let '(s, g) := uniform 0.8 1.2 g in
  let '(ox, g) := random g in
  let '(oy, g) := random g in
  ({| position := Vector2.mk px py;
      velocity := Vector2.mul (Vector2.mk (cos angle) (sin angle))
                              (START_SPEED cfg);
      acceleration := Vector2.mk 0 0;
      color := (0, 0, 0)%Z;
      cohesion_weight := COHESION_WEIGHT setup * c;
      alignment_weight := ALIGNMENT_WEIGHT setup * a;
      separation_weight := SEPARATION_WEIGHT setup * s;
      noise_offset_x := ox * 1000;
      noise_offset_y := oy * 1000 |}, g).

(** [[Boid() for _ in range(n)]] *)
Fixpoint spawn (n : nat) (g : Rng) : list Boid * Rng :=
  match n with
  | O => ([], g)
  | S n =>
      let '(b, g) := Boid_init g in
      let '(rest, g) := spawn n g in
      (b :: rest, g)
  end.

End Setup.

(** ** Boid.draw *)

Section Draw.

(** [math.atan2] *)
Variable atan2 : R -> R -> R.

(** The polygon handed to [pygame.draw.polygon]: its colour and its three
    vertices [tip], [left], [right]. *)
Definition draw (self : Boid) : (Z * Z * Z) * list Vec2 :=
  let angle := atan2 (Vector2.y (velocity self)) (Vector2.x (velocity self)) in
  let length := 8 in
  let tip :=
    Vector2.add (position self)
      (Vector2.mul (Vector2.mk (cos angle) (sin angle)) length) in
  let left :=
    Vector2.add (position self)
      (Vector2.mul (Vector2.mk (cos (angle + 2.5)) (sin (angle + 2.5)))
                   (length / 2)) in
  let right :=
    Vector2.add (position self)
      (Vector2.mul (Vector2.mk (cos (angle - 2.5)) (sin (angle - 2.5)))
                   (length / 2)) in
  (color self, [tip; left; right]).

End Draw.

(** ** The main loop *)

Module Main.

(** The events the loop looks at; every other event is [OTHER]. *)
Inductive event : Type :=
| QUIT
| MOUSEBUTTONDOWN (pos : Vec2)
| OTHER.

(** The local variables of [main] that the simulation reads or writes; the
    display, the clock and the trails surface are left to the renderer. *)
Record World : Type := {
  boids : list Boid;
  attractors : list Vec2;
  background_surface : list (list Z);
  attractors_changed : bool;
  running : bool
}.

(** One iteration of [for event in pygame.event.get()]. *)
Definition handle (w : World) (e : event) : World :=
  match e with
  | QUIT =>
      {| boids := boids w; attractors := attractors w;
         background_surface := background_surface w;
         attractors_changed := attractors_changed w; running := false |}
  | MOUSEBUTTONDOWN pos =>
      {| boids := boids w; attractors := attractors w ++ [pos];
         background_surface := background_surface w;
         attractors_changed := true; running := running w |}
  | OTHER => w
  end.

(** [if attractors_changed: ...] *)
Definition refresh (cfg : Config) (w : World) : World :=
  if attractors_changed w then
    {| boids := boids w; attractors := attractors w;
       background_surface := compute_background_surface cfg (attractors w);
       attractors_changed := false; running := running w |}
  else w.

(** The body of [while running], for the events of one frame. *)
Definition frame (cfg : Config) (pnoise1 : R -> R) (w : World)
  (events : list event) : result World :=
  let w := fold_left handle events w in
  let w := refresh cfg w in
  let* boids' := tick cfg pnoise1 (boids w) (attractors w) in
  Ok {| boids := boids'; attractors := attractors w;
        background_surface := background_surface w;
        attractors_changed := attractors_changed w; running := running w |}.

(** [while running: ...] over the event queues of successive frames; the
    loop is followed for as many frames as there are queues. *)
Fixpoint loop (cfg : Config) (pnoise1 : R -> R) (w : World)
  (queues : list (list event)) : result World :=
  match queues with
  | [] => Ok w
  | events :: rest =>
      if running w then
        let* w' := frame cfg pnoise1 w events in
        loop cfg pnoise1 w' rest
      else Ok w
  end.

(** The state [main] enters the loop with. *)
Definition start (cfg : Config) (setup : Setup) (mersenne : Z -> nat -> R)
  (g : Rng) : asserted World :=
  let made :=
    if ATTRACTOR_INIT setup
    then initialize_attractors cfg setup mersenne g
    else Passed ([], g) in
  match made with
  | Passed (attractors, g) =>
      let background_surface := compute_background_surface cfg attractors in
      let '(boids, g) := spawn cfg setup (NUM_BOIDS setup) g in
      Passed {| boids := boids; attractors := attractors;
                background_surface := background_surface;
                attractors_changed := true; running := true |}
  | AssertionError => AssertionError
  end.

End Main.

(** ** main1.py: the first version *)

Module Main1.

Section Rules.

Variable cfg : Config.

(** COHESION_WEIGHT, ALIGNMENT_WEIGHT and SEPARATION_WEIGHT, global in this
    version. *)
Variables cohesion_weight alignment_weight separation_weight : R.

(** [Boid.apply_rules] of main1.py.  The agent of this version has a
    position and a velocity only; the other fields of [Boid] are carried
    along untouched.  The neighbour scan is that of main8.py. *)
Definition apply_rules (boids : list Boid) (i : nat) (self : Boid)
  : result Boid :=
  let* acc := rules_loop cfg self i 0 boids no_flock in
  let* self :=
    (if Nat.ltb 0 (total acc) then
       let* alignment := Vector2.div (alignment acc) (INR (total acc)) in
       let* centre := Vector2.div (cohesion acc) (INR (total acc)) in
       let* cohesion := Vector2.normalize (Vector2.sub centre (position self)) in
       let v := Vector2.add (velocity self)
                  (Vector2.mul (separation acc) separation_weight) in
       let v := Vector2.add v (Vector2.mul alignment alignment_weight) in
       let v := Vector2.add v (Vector2.mul cohesion cohesion_weight) in
       Ok (set_velocity self v)
     else Ok self) in
  if fgt (Vector2.length (velocity self)) (MAX_SPEED cfg) then
    let* unit := Vector2.normalize (velocity self) in
    Ok (set_velocity self (Vector2.mul unit (MAX_SPEED cfg)))
  else Ok self.

(** [Boid.edges]: the wrap at the borders. *)
Definition edges (self : Boid) : Boid :=
  let px := Vector2.x (position self) in
  let py := Vector2.y (position self) in
  let px := if fgt px (SCREEN_WIDTH cfg) then 0
            else if flt px 0 then SCREEN_WIDTH cfg else px in
  let py := if fgt py (SCREEN_HEIGHT cfg) then 0
            else if flt py 0 then SCREEN_HEIGHT cfg else py in
  set_position self (Vector2.mk px py).

(** [Boid.update] *)
Definition update (boids : list Boid) (i : nat) (self : Boid) : result Boid :=
  let* self := apply_rules boids i self in
  let self := set_position self
                (Vector2.add (position self) (velocity self)) in
  Ok (edges self).

End Rules.

End Main1.

(** ** main3.py: the speed regulation that measures the speed again *)

Module Main3.

Section Rules.

Variable cfg : Config.

(** [Boid.apply_rules] of main3.py: the rules act on the velocity, the
    speed is capped, and the relaxation starts from the speed measured
    after the cap.  The neighbour scan is that of main8.py; the
    acceleration field of [Boid], absent from this version, is carried
    along untouched. *)
Definition apply_rules (boids : list Boid) (i : nat) (self : Boid)
  : result Boid :=
  let* acc := rules_loop cfg self i 0 boids no_flock in
  let* self :=
    (if Nat.ltb 0 (total acc) then
       let* alignment := Vector2.div (alignment acc) (INR (total acc)) in
       let* centre := Vector2.div (cohesion acc) (INR (total acc)) in
       let* cohesion := Vector2.normalize (Vector2.sub centre (position self)) in
       let v := Vector2.add (velocity self)
                  (Vector2.mul (separation acc) (separation_weight self)) in
       let v := Vector2.add v (Vector2.mul alignment (alignment_weight self)) in
       let v := Vector2.add v (Vector2.mul cohesion (cohesion_weight self)) in
       Ok (set_velocity self v)
     else Ok self) in
  let speed := Vector2.length (velocity self) in
  let* self :=
    (if fgt speed (MAX_SPEED cfg) then
       let* unit := Vector2.normalize (velocity self) in
       Ok (set_velocity self (Vector2.mul unit (MAX_SPEED cfg)))
     else Ok self) in
  let current_speed := Vector2.length (velocity self) in
  if fne current_speed 0 then
    let new_speed :=
      current_speed
      + (START_SPEED cfg - current_speed) * SPEED_ADJUSTMENT_FACTOR cfg in
    let* unit := Vector2.normalize (velocity self) in
    Ok (set_velocity self (Vector2.mul unit new_speed))
  else Ok self.

End Rules.

End Main3.

(** ** Further notions used in the statements *)

(** The sum of a list of vectors, from the left. *)
Definition vsum (l : list Vec2) : Vec2 := fold_left Vector2.add l Vector2.zero.

(** The agents the subject at index [i] perceives: the others, from index
    [j] on, that are closer than PERCEPTION_RADIUS. *)
Fixpoint perceived (cfg : Config) (self : Boid) (i j : nat)
  (boids : list Boid) : list Boid :=
  match boids with
  | [] => []
  | boid :: rest =>
      if Nat.eqb j i then perceived cfg self i (S j) rest
      else if flt (Vector2.distance_to (position self) (position boid))
                  (PERCEPTION_RADIUS cfg)
           then boid :: perceived cfg self i (S j) rest
           else perceived cfg self i (S j) rest
  end.

(** The positions clicked during a frame, in order. *)
Fixpoint clicks (events : list Main.event) : list Vec2 :=
  match events with
  | [] => []
  | Main.MOUSEBUTTONDOWN pos :: rest => pos :: clicks rest
  | _ :: rest => clicks rest
  end.

(** The weights and the noise phase of an agent after one update of
    another state of it. *)
Definition same_agent (b b' : Boid) : Prop :=
  cohesion_weight b' = cohesion_weight b
  /\ alignment_weight b' = alignment_weight b
  /\ separation_weight b' = separation_weight b
  /\ noise_offset_x b' = noise_offset_x b + 0.01
  /\ noise_offset_y b' = noise_offset_y b + 0.01.

(** A generator whose draws lie in [[0,1)], as those of [random.random()]. *)
Definition unit_draws (g : Rng) : Prop :=
  forall n : nat, 0 <= draws g n < 1.

(** What the constructor guarantees of a new agent: the speed
    START_SPEED, no acceleration, a position inside the world, weights
    within 20% of the global ones and noise offsets in [[0,1000)]. *)
Definition newborn (cfg : Config) (setup : Setup) (b : Boid) : Prop :=
  Vector2.length (velocity b) = START_SPEED cfg
  /\ acceleration b = Vector2.zero
  /\ 0 <= Vector2.x (position b) <= SCREEN_WIDTH cfg
  /\ 0 <= Vector2.y (position b) <= SCREEN_HEIGHT cfg
  /\ 0.8 * COHESION_WEIGHT setup <= cohesion_weight b
     <= 1.2 * COHESION_WEIGHT setup
  /\ 0.8 * ALIGNMENT_WEIGHT setup <= alignment_weight b
     <= 1.2 * ALIGNMENT_WEIGHT setup
  /\ 0.8 * SEPARATION_WEIGHT setup <= separation_weight b
     <= 1.2 * SEPARATION_WEIGHT setup
  /\ 0 <= noise_offset_x b < 1000
  /\ 0 <= noise_offset_y b < 1000.

(** A point at least ATTRACTOR_INIT_MARGIN away from every edge. *)
Definition inside_margin (cfg : Config) (setup : Setup) (a : Vec2) : Prop :=
  ATTRACTOR_INIT_MARGIN setup <= Vector2.x a
    <= SCREEN_WIDTH cfg - ATTRACTOR_INIT_MARGIN setup
  /\ ATTRACTOR_INIT_MARGIN setup <= Vector2.y a
     <= SCREEN_HEIGHT cfg - ATTRACTOR_INIT_MARGIN setup.

(** The cache of the background is not stale: unless a recomputation is
    pending, the surface is the one of the current attractors. *)
Definition coherent (cfg : Config) (w : Main.World) : Prop :=
  Main.attractors_changed w = false ->
  Main.background_surface w
  = compute_background_surface cfg (Main.attractors w).

(** * Properties *)

(** ** Comparisons *)

Lemma flt_true (a b : R) : a < b -> flt a b = true.
Proof. intros H. unfold flt. destruct (Rlt_dec a b); [reflexivity | contradiction]. Qed.

Lemma flt_false (a b : R) : b <= a -> flt a b = false.
Proof. intros H. unfold flt. destruct (Rlt_dec a b); [lra | reflexivity]. Qed.

Lemma fgt_true (a b : R) : b < a -> fgt a b = true.
Proof. intros H. unfold fgt. destruct (Rgt_dec a b); [reflexivity | lra]. Qed.

Lemma fgt_false (a b : R) : a <= b -> fgt a b = false.
Proof. intros H. unfold fgt. destruct (Rgt_dec a b); [lra | reflexivity]. Qed.

Lemma fne_true (a b : R) : a <> b -> fne a b = true.
Proof. intros H. unfold fne. destruct (Req_dec_T a b); [contradiction | reflexivity]. Qed.

Lemma fne_false (a : R) : fne a a = false.
Proof. unfold fne. destruct (Req_dec_T a a); [reflexivity | contradiction]. Qed.

Lemma fdiv_ok (a b : R) : b <> 0 -> fdiv a b = Ok (a / b).
Proof. intros H. unfold fdiv. now rewrite fne_true. Qed.

(** ** Vectors *)

Lemma length_nonneg (a : Vec2) : 0 <= Vector2.length a.
Proof. apply sqrt_pos. Qed.

Lemma length_sqr (a : Vec2) :
  Vector2.length a * Vector2.length a
  = Vector2.x a * Vector2.x a + Vector2.y a * Vector2.y a.
Proof. unfold Vector2.length. apply sqrt_sqrt. nra. Qed.

Lemma length_zero : Vector2.length Vector2.zero = 0.
Proof.
  unfold Vector2.length, Vector2.zero. simpl.
  replace (0 * 0 + 0 * 0) with 0 by lra. apply sqrt_0.
Qed.

Lemma length_zero_inv (a : Vec2) : Vector2.length a = 0 -> a = Vector2.zero.
Proof.
  intros H. pose proof (length_sqr a) as Hs. rewrite H in Hs.
  destruct a as [ax ay]. simpl in Hs. unfold Vector2.zero.
  assert (ax = 0) by nra. assert (ay = 0) by nra. subst. reflexivity.
Qed.

Lemma length_horizontal (k : R) : Vector2.length (Vector2.mk k 0) = Rabs k.
Proof.
  unfold Vector2.length. simpl.
  replace (k * k + 0 * 0) with (Rsqr k) by (unfold Rsqr; lra).
  apply sqrt_Rsqr_abs.
Qed.

Lemma length_mul (a : Vec2) (k : R) :
  Vector2.length (Vector2.mul a k) = Vector2.length a * Rabs k.
Proof.
  unfold Vector2.length, Vector2.mul. simpl.
  replace (Vector2.x a * k * (Vector2.x a * k)
           + Vector2.y a * k * (Vector2.y a * k))
    with ((Vector2.x a * Vector2.x a + Vector2.y a * Vector2.y a) * Rsqr k)
    by (unfold Rsqr; lra).
  rewrite sqrt_mult_alt by nra.
  now rewrite sqrt_Rsqr_abs.
Qed.

Lemma length_ge_x (a : Vec2) : Rabs (Vector2.x a) <= Vector2.length a.
Proof.
  pose proof (length_sqr a) as Hs. pose proof (length_nonneg a) as Hn.
  unfold Rabs. destruct (Rcase_abs (Vector2.x a)); nra.
Qed.

Lemma distance_to_sub (a b : Vec2) :
  Vector2.distance_to a b = Vector2.length (Vector2.sub a b).
Proof.
  unfold Vector2.distance_to, Vector2.length, Vector2.sub. simpl.
  f_equal. lra.
Qed.

Lemma distance_to_sym (a b : Vec2) :
  Vector2.distance_to a b = Vector2.distance_to b a.
Proof. unfold Vector2.distance_to. f_equal. lra. Qed.

Lemma normalize_ok (a : Vec2) :
  Vector2.length a <> 0 ->
  Vector2.normalize a
  = Ok (Vector2.mk (Vector2.x a / Vector2.length a)
                   (Vector2.y a / Vector2.length a)).
Proof. intros H. unfold Vector2.normalize. now rewrite fne_true. Qed.

Lemma normalize_zero (a : Vec2) :
  Vector2.length a = 0 -> Vector2.normalize a = Raise ValueError.
Proof. intros H. unfold Vector2.normalize. rewrite H. now rewrite fne_false. Qed.

Lemma normalize_unit (a u : Vec2) :
  Vector2.normalize a = Ok u -> Vector2.length u = 1.
Proof.
  unfold Vector2.normalize, fne. destruct (Req_dec_T (Vector2.length a) 0) as [|Hn];
    [discriminate |].
  intros [= <-]. pose proof (length_sqr a) as Hs.
  pose proof (length_nonneg a) as Hp.
  unfold Vector2.length at 1. simpl.
  replace (Vector2.x a / Vector2.length a * (Vector2.x a / Vector2.length a)
           + Vector2.y a / Vector2.length a * (Vector2.y a / Vector2.length a))
    with 1.
  - apply sqrt_1.
  - transitivity ((Vector2.x a * Vector2.x a + Vector2.y a * Vector2.y a)
                  / (Vector2.length a * Vector2.length a)).
    + rewrite <- Hs. field. assumption.
    + field. assumption.
Qed.

Lemma normalize_horizontal (k : R) :
  0 < k -> Vector2.normalize (Vector2.mk k 0) = Ok (Vector2.mk 1 0).
Proof.
  intros Hk. assert (Hl : Vector2.length (Vector2.mk k 0) = k)
    by (rewrite length_horizontal; apply Rabs_pos_eq; lra).
  rewrite normalize_ok by (rewrite Hl; lra). simpl. rewrite Hl.
  f_equal. f_equal; field; lra.
Qed.

Lemma normalize_horizontal_neg (k : R) :
  k < 0 -> Vector2.normalize (Vector2.mk k 0) = Ok (Vector2.mk (-1) 0).
Proof.
  intros Hk. assert (Hl : Vector2.length (Vector2.mk k 0) = - k)
    by (rewrite length_horizontal; apply Rabs_left; lra).
  rewrite normalize_ok by (rewrite Hl; lra). simpl. rewrite Hl.
  f_equal. f_equal; field; lra.
Qed.

Lemma div_ok (a : Vec2) (k : R) :
  k <> 0 ->
  Vector2.div a k = Ok (Vector2.mk (Vector2.x a / k) (Vector2.y a / k)).
Proof. intros H. unfold Vector2.div. now rewrite fne_true. Qed.

Lemma add_zero_r (a : Vec2) : Vector2.add a Vector2.zero = a.
Proof. destruct a. unfold Vector2.add, Vector2.zero. simpl. f_equal; lra. Qed.

Lemma accelerate_zero (self : Boid) : accelerate self Vector2.zero = self.
Proof.
  unfold accelerate, set_acceleration. rewrite add_zero_r. now destruct self.
Qed.

(** ** Boundary force *)

(** C9.  Away from degenerate worlds (the two margins of an axis do not
    overlap) and for a positive turn factor: [avoid_edges] adds
    [edge_force] to the acceleration; on each axis that force is
    [TURN_FACTOR * (margin - distance_to_edge)], pointing inward, when the
    agent is closer than the margin to an edge of the axis (the distance to
    the low edge is the coordinate, to the high edge the world size minus the
    coordinate), and it is zero when the agent is outside both margins. *)
Theorem avoid_edges_soft_repulsion (cfg : Config) (self : Boid) :
  0 < TURN_FACTOR cfg ->
  2 * BOUNDARY_PERCEPTION cfg <= SCREEN_WIDTH cfg ->
  2 * BOUNDARY_PERCEPTION cfg <= SCREEN_HEIGHT cfg ->
  let margin := BOUNDARY_PERCEPTION cfg in
  let px := Vector2.x (position self) in
  let py := Vector2.y (position self) in
  let force := edge_force cfg (position self) in
  acceleration (avoid_edges cfg self) = Vector2.add (acceleration self) force
  /\ (px < margin ->
      Vector2.x force = TURN_FACTOR cfg * (margin - px)
      /\ 0 < Vector2.x force)
  /\ (SCREEN_WIDTH cfg - px < margin ->
      Vector2.x force = - (TURN_FACTOR cfg * (margin - (SCREEN_WIDTH cfg - px)))
      /\ Vector2.x force < 0)
  /\ (margin <= px -> margin <= SCREEN_WIDTH cfg - px -> Vector2.x force = 0)
  /\ (py < margin ->
      Vector2.y force = TURN_FACTOR cfg * (margin - py)
      /\ 0 < Vector2.y force)
  /\ (SCREEN_HEIGHT cfg - py < margin ->
      Vector2.y force = - (TURN_FACTOR cfg * (margin - (SCREEN_HEIGHT cfg - py)))
      /\ Vector2.y force < 0)
  /\ (margin <= py -> margin <= SCREEN_HEIGHT cfg - py -> Vector2.y force = 0).
Proof.
  intros Hturn Hw Hh margin px py force.
  split; [reflexivity |].
  subst force margin px py. unfold edge_force, BOUNDARY_PERCEPTION in *.
  cbn [Vector2.x Vector2.y].
  repeat split; intros.
  - rewrite flt_true by assumption. reflexivity.
  - rewrite flt_true by assumption. nra.
  - rewrite flt_false by lra. rewrite fgt_true by lra. lra.
  - rewrite flt_false by lra. rewrite fgt_true by lra. nra.
  - rewrite flt_false by lra. rewrite fgt_false by lra. reflexivity.
  - rewrite flt_true by assumption. reflexivity.
  - rewrite flt_true by assumption. nra.
  - rewrite flt_false by lra. rewrite fgt_true by lra. lra.
  - rewrite flt_false by lra. rewrite fgt_true by lra. nra.
  - rewrite flt_false by lra. rewrite fgt_false by lra. reflexivity.
Qed.

(** An agent in the lower left corner region of the main8 world, 10 from
    the left edge and 5 from the bottom edge. *)
Lemma avoid_edges_soft_repulsion_witness :
  let self := new_boid (Vector2.mk 10 995) (Vector2.mk 1 0) in
  let force := edge_force main8 (position self) in
  Vector2.x force = 0.0325 * (30 - 10)
  /\ Vector2.y force = - (0.0325 * (30 - (1000 - 995))).
Proof.
  intros self force.
  destruct (avoid_edges_soft_repulsion main8 self) as (_ & Hx & _ & _ & _ & Hy & _).
  - simpl. lra.
  - unfold BOUNDARY_PERCEPTION. simpl. lra.
  - unfold BOUNDARY_PERCEPTION. simpl. lra.
  - split.
    + apply Hx. unfold BOUNDARY_PERCEPTION. simpl. lra.
    + apply Hy. unfold BOUNDARY_PERCEPTION. simpl. lra.
Defined.

(** ** Flocking without neighbours *)

Lemma rules_loop_no_neighbours (cfg : Config) (self : Boid) (i : nat)
  (boids : list Boid) :
  forall (j : nat) (acc : Flock),
    (forall k boid, boids !! k = Some boid -> (j + k)%nat <> i ->
       PERCEPTION_RADIUS cfg
       <= Vector2.distance_to (position self) (position boid)) ->
    rules_loop cfg self i j boids acc = Ok acc.
Proof.
  induction boids as [| boid rest IH]; intros j acc Hfar; [reflexivity |].
  cbn [rules_loop]. unfold rules_step.
  destruct (Nat.eqb_spec j i) as [-> | Hne]; cbn [bind].
  - apply IH. intros k b Hk Hi. apply (Hfar (S k) b); [exact Hk | lia].
  - rewrite flt_false.
    + cbn [bind]. apply IH. intros k b Hk Hi.
      apply (Hfar (S k) b); [exact Hk | lia].
    + apply (Hfar 0%nat boid); [reflexivity | lia].
Qed.

Lemma apply_rules_far (cfg : Config) (boids : list Boid) (i : nat)
  (self : Boid) :
  (forall j boid, boids !! j = Some boid -> j <> i ->
     PERCEPTION_RADIUS cfg
     <= Vector2.distance_to (position self) (position boid)) ->
  apply_rules cfg boids i self = Ok self.
Proof.
  intros Hfar. unfold apply_rules.
  rewrite rules_loop_no_neighbours by (intros k b Hk Hi; now apply (Hfar k b)).
  reflexivity.
Qed.

(** C5.  When no other agent of the population is closer than
    PERCEPTION_RADIUS to the subject (the neighbour count stays 0),
    [apply_rules] adds exactly the zero vector to the subject's
    acceleration: it returns the subject unchanged. *)
Theorem apply_rules_no_neighbours (cfg : Config) (boids : list Boid)
  (i : nat) (self : Boid) :
  (forall j boid, boids !! j = Some boid -> j <> i ->
     PERCEPTION_RADIUS cfg
     <= Vector2.distance_to (position self) (position boid)) ->
  apply_rules cfg boids i self = Ok (accelerate self Vector2.zero)
  /\ accelerate self Vector2.zero = self.
Proof.
  intros Hfar. split; [| apply accelerate_zero].
  rewrite accelerate_zero. now apply apply_rules_far.
Qed.

(** ** Attractors *)

Lemma powerRZ_pos (r : R) (n : Z) : 0 < r -> 0 < powerRZ r n.
Proof. apply powerRZ_lt. Qed.

Lemma powerRZ_minus_one (r : R) : powerRZ r (-1) = / r.
Proof. simpl. now rewrite Rmult_1_r. Qed.

(** C6.  For a non-negative ATTRACTOR_FORCE and ATTRACTOR_FORCE_MAX and a
    positive MASS_EQUIVALENT, an attractor at distance [d > 0] from the
    subject adds to the acceleration a vector whose length is at most
    ATTRACTOR_FORCE_MAX, whatever [d]; and whenever the raw magnitude
    [ATTRACTOR_FORCE * d ^ EXP / MASS_EQUIVALENT] reaches the cap (as it
    does for small [d] with a negative exponent) the length is exactly
    ATTRACTOR_FORCE_MAX. *)
Theorem attractor_pull_clamped (cfg : Config) (self : Boid) (attractor : Vec2) :
  0 <= ATTRACTOR_FORCE cfg ->
  0 < MASS_EQUIVALENT cfg ->
  0 <= ATTRACTOR_FORCE_MAX cfg ->
  let d := Vector2.distance_to (position self) attractor in
  0 < d ->
  exists pull : Vec2,
    attractor_step cfg self attractor = Ok (accelerate self pull)
    /\ Vector2.length pull <= ATTRACTOR_FORCE_MAX cfg
    /\ (ATTRACTOR_FORCE_MAX cfg
        <= ATTRACTOR_FORCE cfg * powerRZ d (ATTRACTOR_FORCE_DISTANCE_EXP cfg)
           / MASS_EQUIVALENT cfg ->
        Vector2.length pull = ATTRACTOR_FORCE_MAX cfg).
Proof.
  intros Hf Hm Hmax d Hd.
  assert (Hlen : Vector2.length (Vector2.sub attractor (position self)) = d).
  { subst d. rewrite distance_to_sym. apply eq_sym, distance_to_sub. }
  unfold attractor_step. rewrite Hlen.
  rewrite fne_true by lra.
  rewrite fdiv_ok by lra. cbn [bind].
  destruct (Vector2.normalize (Vector2.sub attractor (position self)))
    as [unit | e] eqn:Hunit.
  2:{ unfold Vector2.normalize in Hunit. rewrite Hlen in Hunit.
      rewrite fne_true in Hunit by lra. discriminate. }
  cbn [bind]. eexists. split; [reflexivity |].
  rewrite length_mul, (normalize_unit _ _ Hunit), Rmult_1_l.
  set (raw := ATTRACTOR_FORCE cfg
              * powerRZ d (ATTRACTOR_FORCE_DISTANCE_EXP cfg)
              / MASS_EQUIVALENT cfg).
  assert (Hraw : 0 <= raw).
  { subst raw. apply Rmult_le_pos.
    - apply Rmult_le_pos; [exact Hf |]. left. now apply powerRZ_pos.
    - left. now apply Rinv_0_lt_compat. }
  assert (Hmin : 0 <= Rmin raw (ATTRACTOR_FORCE_MAX cfg))
    by (apply Rmin_glb; assumption).
  rewrite Rabs_pos_eq by exact Hmin.
  split.
  - apply Rmin_r.
  - intros Hcap. now apply Rmin_right.
Qed.

(** An attractor one tenth of a unit to the right of an agent of the main8
    world: the raw magnitude 10 / 0.1 / 2 = 50 is cut to 20. *)
Lemma attractor_pull_clamped_witness :
  exists pull : Vec2,
    attractor_step main8 (new_boid (Vector2.mk 100 100) (Vector2.mk 1 0))
                   (Vector2.mk 100.1 100)
    = Ok (accelerate (new_boid (Vector2.mk 100 100) (Vector2.mk 1 0)) pull)
    /\ Vector2.length pull = 20.
Proof.
  assert (Hd : Vector2.distance_to (Vector2.mk 100 100) (Vector2.mk 100.1 100)
               = 0.1).
  { rewrite distance_to_sym, distance_to_sub. unfold Vector2.sub. simpl.
    replace (100.1 - 100) with 0.1 by lra. replace (100 - 100) with 0 by lra.
    rewrite length_horizontal. apply Rabs_pos_eq. lra. }
  destruct (attractor_pull_clamped main8
              (new_boid (Vector2.mk 100 100) (Vector2.mk 1 0))
              (Vector2.mk 100.1 100)) as (pull & Hstep & _ & Hcap).
  - simpl. lra.
  - simpl. lra.
  - simpl. lra.
  - simpl. rewrite Hd. lra.
  - exists pull. split; [exact Hstep |]. apply Hcap.
    cbn [position new_boid]. rewrite Hd.
    change (ATTRACTOR_FORCE_DISTANCE_EXP main8) with (-1)%Z.
    rewrite powerRZ_minus_one. simpl. lra.
Defined.

Lemma distance_to_horizontal (a b h : R) :
  Vector2.distance_to (Vector2.mk a h) (Vector2.mk b h) = Rabs (b - a).
Proof.
  unfold Vector2.distance_to. simpl.
  replace ((b - a) * (b - a) + (h - h) * (h - h)) with (Rsqr (b - a))
    by (unfold Rsqr; lra).
  apply sqrt_Rsqr_abs.
Qed.

(** Two agents of the main8 world 100 apart: neither perceives the other. *)
Lemma apply_rules_no_neighbours_witness :
  apply_rules main8
    [new_boid (Vector2.mk 100 100) (Vector2.mk 1 0);
     new_boid (Vector2.mk 200 100) (Vector2.mk 0 1)]
    0 (new_boid (Vector2.mk 100 100) (Vector2.mk 1 0))
  = Ok (new_boid (Vector2.mk 100 100) (Vector2.mk 1 0)).
Proof.
  destruct (apply_rules_no_neighbours main8
              [new_boid (Vector2.mk 100 100) (Vector2.mk 1 0);
               new_boid (Vector2.mk 200 100) (Vector2.mk 0 1)]
              0 (new_boid (Vector2.mk 100 100) (Vector2.mk 1 0)))
    as [Hrun Hsame].
  - intros [| [| j]] boid Hj Hne;
      [now contradiction Hne | | now destruct j].
    injection Hj as <-. simpl. rewrite distance_to_horizontal.
    rewrite Rabs_pos_eq; lra.
  - rewrite Hrun. f_equal. exact Hsame.
Defined.

(** C7.  In the scenario configuration, an agent at (200,100) and the single
    attractor (100,100): [apply_attractors] adds to the acceleration the
    vector (-0.1, 0), whose length is 0.1 and whose direction is (-1, 0). *)
Theorem attractor_scenario_pull (self : Boid) :
  let subject := set_position self (Vector2.mk 200 100) in
  let pull := Vector2.mk (-0.1) 0 in
  apply_attractors attractor_scenario subject [Vector2.mk 100 100]
  = Ok (accelerate subject pull)
  /\ Vector2.length pull = 0.1
  /\ Vector2.normalize pull = Ok (Vector2.mk (-1) 0).
Proof.
  intros subject pull.
  assert (Hdir : Vector2.sub (Vector2.mk 100 100) (position subject)
                 = Vector2.mk (-100) 0).
  { unfold Vector2.sub. simpl. f_equal; lra. }
  assert (Hlen : Vector2.length (Vector2.mk (-100) 0) = 100).
  { rewrite length_horizontal. rewrite Rabs_left; lra. }
  repeat split.
  - cbn [apply_attractors]. unfold attractor_step. rewrite Hdir, Hlen.
    rewrite fne_true by lra.
    change (ATTRACTOR_FORCE_DISTANCE_EXP attractor_scenario) with (-1)%Z.
    rewrite powerRZ_minus_one.
    rewrite fdiv_ok by (simpl; lra). cbn [bind].
    rewrite normalize_horizontal_neg by lra. cbn [bind].
    f_equal. unfold accelerate. f_equal. f_equal.
    unfold Vector2.mul, pull. cbn -[Rmin].
    rewrite Rmin_left by lra. f_equal; lra.
  - unfold pull. rewrite length_horizontal. rewrite Rabs_left; lra.
  - unfold pull. apply normalize_horizontal_neg. lra.
Qed.

(** ** Speed regulation *)

Lemma normalize_unit_of (v : Vec2) :
  Vector2.length v <> 0 -> Vector2.normalize v = Ok (unit_of v).
Proof. apply normalize_ok. Qed.

Lemma length_unit_of (v : Vec2) :
  Vector2.length v <> 0 -> Vector2.length (unit_of v) = 1.
Proof.
  intros H. apply (normalize_unit v). now apply normalize_unit_of.
Qed.

Lemma normalize_scaled_unit (v : Vec2) (k : R) :
  Vector2.length v <> 0 -> 0 < k ->
  Vector2.normalize (Vector2.mul (unit_of v) k) = Ok (unit_of v).
Proof.
  intros Hv Hk.
  assert (Hl : Vector2.length (Vector2.mul (unit_of v) k) = k).
  { rewrite length_mul, length_unit_of by assumption.
    rewrite Rabs_pos_eq; lra. }
  rewrite normalize_ok by (rewrite Hl; lra). rewrite Hl.
  unfold Vector2.mul. cbn [Vector2.x Vector2.y].
  f_equal. destruct (unit_of v) as [ux uy]. cbn [Vector2.x Vector2.y].
  f_equal; field; lra.
Qed.

(** What the two [if]s on [speed] compute for a moving agent: the unit
    vector of the velocity scaled by the relaxed speed, whether or not the
    cap fired in between. *)
Lemma regulate_speed_moving (cfg : Config) (v : Vec2) :
  0 < MAX_SPEED cfg ->
  Vector2.length v <> 0 ->
  regulate_speed cfg v
  = Ok (Vector2.mul (unit_of v)
          (Vector2.length v
           + (START_SPEED cfg - Vector2.length v)
             * SPEED_ADJUSTMENT_FACTOR cfg)).
Proof.
  intros Hmax Hv. unfold regulate_speed.
  rewrite (fne_true _ 0) by exact Hv.
  unfold fgt. destruct (Rgt_dec (Vector2.length v) (MAX_SPEED cfg)).
  - rewrite normalize_unit_of by exact Hv. cbn [bind].
    rewrite normalize_scaled_unit by assumption. reflexivity.
  - cbn [bind]. rewrite normalize_unit_of by exact Hv. reflexivity.
Qed.

Lemma regulate_speed_at_rest (cfg : Config) (v : Vec2) :
  0 <= MAX_SPEED cfg ->
  Vector2.length v = 0 ->
  regulate_speed cfg v = Ok v.
Proof.
  intros Hmax Hv. unfold regulate_speed. rewrite Hv.
  rewrite fgt_false by exact Hmax. cbn [bind]. now rewrite fne_false.
Qed.

(** C8, as the code has it.  For a positive MAX_SPEED, a non-negative
    START_SPEED, an adjustment factor in [0,1] and a non-zero mass
    equivalent, [move] returns and the position advances by the new
    velocity.  With [speed] the length of the velocity after the inertia
    update: whenever [speed <> 0] the relaxation is applied, whether or not
    the cap fired, and rescales the velocity along its direction; when the
    cap did not fire ([speed <= MAX_SPEED]) the new speed is
    [speed + (START_SPEED - speed) * SPEED_ADJUSTMENT_FACTOR] (4.1 for
    START_SPEED = 2, factor 0.3 and speed 5); when [speed = 0] the
    relaxation is skipped and the velocity stays zero. *)
Theorem speed_relaxation (cfg : Config) (self : Boid) :
  0 < MAX_SPEED cfg ->
  0 <= START_SPEED cfg ->
  0 <= SPEED_ADJUSTMENT_FACTOR cfg <= 1 ->
  MASS_EQUIVALENT cfg <> 0 ->
  let v := inertia cfg self in
  let speed := Vector2.length v in
  let new_speed :=
    speed + (START_SPEED cfg - speed) * SPEED_ADJUSTMENT_FACTOR cfg in
  exists self' : Boid,
    move cfg self = Ok self'
    /\ position self' = Vector2.add (position self) (velocity self')
    /\ (speed <> 0 ->
        velocity self'
        = Vector2.mul (unit_of v) (Vector2.length (velocity self'))
        /\ (speed <= MAX_SPEED cfg ->
            Vector2.length (velocity self') = new_speed))
    /\ (speed = 0 -> velocity self' = Vector2.zero)
    /\ (START_SPEED cfg = 2 -> SPEED_ADJUSTMENT_FACTOR cfg = 0.3 ->
        speed = 5 -> speed <= MAX_SPEED cfg ->
        Vector2.length (velocity self') = 4.1).
Proof.
  intros Hmax Hstart Hfactor Hmass v speed new_speed.
  assert (Hnew : speed <> 0 ->
                 Vector2.length (Vector2.mul (unit_of v) new_speed) = new_speed).
  { intros Hs. rewrite length_mul, length_unit_of by exact Hs.
    pose proof (length_nonneg v) as Hp. fold speed in Hp.
    rewrite Rabs_pos_eq; [lra |]. subst new_speed. nra. }
  unfold move. rewrite div_ok by exact Hmass. cbn [bind].
  fold (inertia cfg self). fold v.
  destruct (Req_dec_T speed 0) as [Hz | Hnz].
  - rewrite regulate_speed_at_rest by (fold speed; lra || assumption).
    cbn [bind]. eexists. split; [reflexivity |].
    cbn [position velocity set_position set_velocity].
    split; [reflexivity |]. split; [intros Hs; contradiction |].
    split; [intros _; now apply length_zero_inv |].
    intros _ _ H5 _. lra.
  - rewrite regulate_speed_moving by assumption. fold speed new_speed.
    cbn [bind]. eexists. split; [reflexivity |].
    cbn [position velocity set_position set_velocity].
    split; [reflexivity |].
    split; [intros _; rewrite (Hnew Hnz); split; [reflexivity | now intros _] |].
    split; [intros Hs; contradiction |].
    intros Hs Hf H5 _. rewrite Hnew by exact Hnz. subst new_speed. nra.
Qed.

Lemma inertia_horizontal (vx ax m : R) :
  Vector2.add (Vector2.mk vx 0) (Vector2.mk (ax / m) (0 / m))
  = Vector2.mk (vx + ax / m) 0.
Proof. unfold Vector2.add. simpl. f_equal. unfold Rdiv. lra. Qed.

(** An agent flying at speed 5 with no acceleration leaves the relaxation
    at speed 4.1. *)
Lemma speed_relaxation_witness :
  exists self' : Boid,
    move relaxation_scenario (new_boid (Vector2.mk 100 100) (Vector2.mk 5 0))
    = Ok self'
    /\ Vector2.length (velocity self') = 4.1.
Proof.
  destruct (speed_relaxation relaxation_scenario
              (new_boid (Vector2.mk 100 100) (Vector2.mk 5 0)))
    as (self' & Hmove & _ & _ & _ & Hspeed).
  - simpl. lra.
  - simpl. lra.
  - simpl. lra.
  - simpl. lra.
  - exists self'. split; [exact Hmove |].
    assert (H5 : Vector2.length
                   (inertia relaxation_scenario
                      (new_boid (Vector2.mk 100 100) (Vector2.mk 5 0))) = 5).
    { unfold inertia.
      cbn [velocity acceleration new_boid Vector2.zero Vector2.x Vector2.y].
      rewrite inertia_horizontal, length_horizontal.
      rewrite Rabs_pos_eq; simpl; lra. }
    apply Hspeed; [reflexivity | reflexivity | exact H5 |].
    rewrite H5. simpl. lra.
Defined.

(** An agent of the main8 world whose velocity (2,0) is cancelled by the
    acceleration (-4,0): the speed after the inertia update is 0, the
    relaxation is skipped, and the agent is left at speed 0 where the
    relaxation formula gives 0 + (2.25 - 0) * 0.3 = 0.675. *)
Lemma speed_relaxation_skipped_at_rest :
  let self := set_acceleration
                (new_boid (Vector2.mk 100 100) (Vector2.mk 2 0))
                (Vector2.mk (-4) 0) in
  let speed := Vector2.length (inertia main8 self) in
  speed = 0
  /\ exists self' : Boid,
       move main8 self = Ok self'
       /\ Vector2.length (velocity self')
          <> speed + (START_SPEED main8 - speed) * SPEED_ADJUSTMENT_FACTOR main8.
Proof.
  intros self speed.
  assert (Hspeed : speed = 0).
  { subst speed self. unfold inertia.
    cbn [velocity acceleration set_acceleration new_boid Vector2.x Vector2.y
         MASS_EQUIVALENT main8].
    rewrite inertia_horizontal, length_horizontal.
    replace (2 + -4 / 2) with 0 by lra. apply Rabs_R0. }
  split; [exact Hspeed |].
  unfold move. rewrite div_ok by (simpl; lra). cbn [bind].
  fold (inertia main8 self).
  rewrite regulate_speed_at_rest; [| simpl; lra | exact Hspeed].
  cbn [bind]. eexists. split; [reflexivity |].
  cbn [velocity set_position set_velocity]. fold speed.
  rewrite Hspeed. simpl. lra.
Qed.

(** ** Separation *)

Lemma rules_step_self (cfg : Config) (self boid : Boid) (i : nat) (acc : Flock) :
  rules_step cfg self i i boid acc = Ok acc.
Proof. unfold rules_step. now rewrite Nat.eqb_refl. Qed.

Lemma rules_step_far (cfg : Config) (self boid : Boid) (i j : nat) (acc : Flock) :
  PERCEPTION_RADIUS cfg
  <= Vector2.distance_to (position self) (position boid) ->
  rules_step cfg self i j boid acc = Ok acc.
Proof.
  intros Hfar. unfold rules_step. destruct (Nat.eqb j i); [reflexivity |].
  now rewrite flt_false.
Qed.

(** A perceived agent that is also inside the separation radius, at a
    positive distance. *)
Lemma rules_step_near (cfg : Config) (self boid : Boid) (i j : nat) (acc : Flock) :
  j <> i ->
  let d := Vector2.distance_to (position self) (position boid) in
  let diff := Vector2.sub (position self) (position boid) in
  0 < d -> d < PERCEPTION_RADIUS cfg -> d < SEPARATION_RADIUS cfg ->
  rules_step cfg self i j boid acc
  = Ok {| separation :=
            Vector2.add (separation acc)
              (Vector2.mk (Vector2.x (unit_of diff) / d)
                          (Vector2.y (unit_of diff) / d));
          alignment := Vector2.add (alignment acc) (velocity boid);
          cohesion := Vector2.add (cohesion acc) (position boid);
          total := S (total acc) |}.
Proof.
  intros Hne d diff Hd Hp Hs. unfold rules_step.
  apply Nat.eqb_neq in Hne. rewrite Hne. fold d.
  rewrite (flt_true _ _ Hp), (flt_true _ _ Hs). fold diff.
  assert (Hlen : Vector2.length diff = d)
    by (subst d diff; apply eq_sym, distance_to_sub).
  rewrite normalize_unit_of by (rewrite Hlen; lra). cbn [bind].
  rewrite div_ok by lra. reflexivity.
Qed.

Lemma dot_push (diff : Vec2) :
  Vector2.length diff <> 0 ->
  Vector2.dot
    (Vector2.mk (Vector2.x (unit_of diff) / Vector2.length diff)
                (Vector2.y (unit_of diff) / Vector2.length diff))
    diff = 1.
Proof.
  intros Hn. pose proof (length_sqr diff) as Hs.
  unfold Vector2.dot, unit_of. cbn [Vector2.x Vector2.y].
  transitivity ((Vector2.x diff * Vector2.x diff + Vector2.y diff * Vector2.y diff)
                / (Vector2.length diff * Vector2.length diff)).
  - field. exact Hn.
  - rewrite <- Hs. field. exact Hn.
Qed.

(** C3, as the code has it.  In a population of two agents A and B whose
    distance is positive and smaller than SEPARATION_RADIUS, the neighbour
    scan for A returns.  When the distance is also smaller than
    PERCEPTION_RADIUS the separation it accumulates points away from B: its
    dot product with [A.position - B.position] is positive (it is 1), and so
    is that of the weighted separation added to A's acceleration when A's
    separation weight is positive.  When the distance is PERCEPTION_RADIUS
    or more, B is not perceived and the separation is the zero vector. *)
Theorem separation_points_away (cfg : Config) (A B : Boid) :
  let d := Vector2.distance_to (position A) (position B) in
  let diff := Vector2.sub (position A) (position B) in
  0 < d -> d < SEPARATION_RADIUS cfg ->
  exists acc : Flock,
    rules_loop cfg A 0 0 [A; B] no_flock = Ok acc
    /\ (d < PERCEPTION_RADIUS cfg ->
        0 < Vector2.dot (separation acc) diff
        /\ (0 < separation_weight A ->
            0 < Vector2.dot
                  (Vector2.mul (separation acc) (separation_weight A)) diff))
    /\ (PERCEPTION_RADIUS cfg <= d -> separation acc = Vector2.zero).
Proof.
  intros d diff Hd Hs.
  assert (Hlen : Vector2.length diff = d)
    by (subst d diff; apply eq_sym, distance_to_sub).
  cbn [rules_loop]. rewrite rules_step_self. cbn [bind].
  destruct (Rlt_dec d (PERCEPTION_RADIUS cfg)) as [Hp | Hfar].
  - rewrite rules_step_near by (auto; fold d; lra). cbn [bind].
    eexists. split; [reflexivity |]. split; [intros _ | intros Hge; lra].
    cbn [separation no_flock]. fold d diff. rewrite <- Hlen.
    pose proof (dot_push diff) as Hdot.
    assert (Hn : Vector2.length diff <> 0) by lra. specialize (Hdot Hn).
    set (push := Vector2.mk _ _) in *.
    assert (Hsum : Vector2.dot (Vector2.add Vector2.zero push) diff = 1).
    { rewrite <- Hdot. unfold Vector2.dot, Vector2.add, Vector2.zero.
      cbn [Vector2.x Vector2.y]. lra. }
    split; [lra |]. intros Hw.
    replace (Vector2.dot
               (Vector2.mul (Vector2.add Vector2.zero push)
                            (separation_weight A))
               diff)
      with (separation_weight A
            * Vector2.dot (Vector2.add Vector2.zero push) diff)
      by (unfold Vector2.dot, Vector2.mul; cbn [Vector2.x Vector2.y]; lra).
    rewrite Hsum. lra.
  - rewrite rules_step_far by (fold d; lra). cbn [bind].
    eexists. split; [reflexivity |]. split; [intros Hp; lra | reflexivity].
Qed.

(** Two agents of the main8 world 10 apart. *)
Lemma separation_points_away_witness :
  exists acc : Flock,
    rules_loop main8 (new_boid (Vector2.mk 100 100) (Vector2.mk 1 0)) 0 0
      [new_boid (Vector2.mk 100 100) (Vector2.mk 1 0);
       new_boid (Vector2.mk 110 100) (Vector2.mk 0 1)] no_flock
    = Ok acc
    /\ 0 < Vector2.dot (separation acc)
             (Vector2.sub (Vector2.mk 100 100) (Vector2.mk 110 100)).
Proof.
  assert (Hd : Vector2.distance_to (Vector2.mk 100 100) (Vector2.mk 110 100)
               = 10).
  { rewrite distance_to_horizontal. rewrite Rabs_pos_eq; lra. }
  destruct (separation_points_away main8
              (new_boid (Vector2.mk 100 100) (Vector2.mk 1 0))
              (new_boid (Vector2.mk 110 100) (Vector2.mk 0 1)))
    as (acc & Hrun & Hnear & _).
  - simpl. rewrite Hd. lra.
  - simpl. rewrite Hd. lra.
  - exists acc. split; [exact Hrun |]. apply Hnear.
    simpl. rewrite Hd. lra.
Defined.

(** Two agents of the main8 world 35 apart: closer than SEPARATION_RADIUS
    (40) but not closer than PERCEPTION_RADIUS (30).  The scan for the first
    skips the second, the separation stays the zero vector and its dot
    product with [A.position - B.position] is 0. *)
Lemma separation_absent_beyond_perception :
  let A := new_boid (Vector2.mk 100 100) (Vector2.mk 1 0) in
  let B := new_boid (Vector2.mk 135 100) (Vector2.mk 0 1) in
  let d := Vector2.distance_to (position A) (position B) in
  let diff := Vector2.sub (position A) (position B) in
  0 < d /\ d < SEPARATION_RADIUS main8
  /\ exists acc : Flock,
       rules_loop main8 A 0 0 [A; B] no_flock = Ok acc
       /\ ~ 0 < Vector2.dot (Vector2.mul (separation acc) (separation_weight A))
                            diff.
Proof.
  intros A B d diff.
  assert (Hd : d = 35).
  { subst d A B. cbn [position new_boid].
    rewrite distance_to_horizontal. rewrite Rabs_pos_eq; lra. }
  split; [lra |]. split; [simpl; lra |].
  cbn [rules_loop]. rewrite rules_step_self. cbn [bind].
  rewrite rules_step_far by (fold d; simpl; lra). cbn [bind].
  eexists. split; [reflexivity |].
  unfold Vector2.dot, Vector2.mul. simpl. lra.
Qed.

(** ** Normalisation of zero-length vectors *)

Lemma distance_to_self (p : Vec2) : Vector2.distance_to p p = 0.
Proof.
  unfold Vector2.distance_to.
  replace ((Vector2.x p - Vector2.x p) * (Vector2.x p - Vector2.x p)
           + (Vector2.y p - Vector2.y p) * (Vector2.y p - Vector2.y p))
    with 0 by lra.
  apply sqrt_0.
Qed.

Lemma length_sub_self (p : Vec2) : Vector2.length (Vector2.sub p p) = 0.
Proof. rewrite <- distance_to_sub. apply distance_to_self. Qed.

(** The guarded case: an attractor exactly at the subject's position is
    skipped. *)
Lemma attractor_step_coincident (cfg : Config) (self : Boid) :
  attractor_step cfg self (position self) = Ok self.
Proof.
  unfold attractor_step. rewrite length_sub_self. now rewrite fne_false.
Qed.

(** Two agents at the same position: the scan of the first faults on the
    second. *)
Lemma rules_step_coincident (cfg : Config) (self boid : Boid) (i j : nat)
  (acc : Flock) :
  j <> i ->
  position boid = position self ->
  0 < PERCEPTION_RADIUS cfg -> 0 < SEPARATION_RADIUS cfg ->
  rules_step cfg self i j boid acc = Raise ValueError.
Proof.
  intros Hne Hpos Hp Hs. unfold rules_step.
  apply Nat.eqb_neq in Hne. rewrite Hne, Hpos, distance_to_self.
  rewrite (flt_true _ _ Hp), (flt_true _ _ Hs).
  rewrite normalize_zero by apply length_sub_self. reflexivity.
Qed.

Lemma tick_first_faults (cfg : Config) (pnoise1 : R -> R) (self : Boid)
  (rest : list Boid) (attractors : list Vec2) (e : exn) :
  apply_rules cfg (self :: rest) 0 (set_acceleration self Vector2.zero)
  = Raise e ->
  tick cfg pnoise1 (self :: rest) attractors = Raise e.
Proof.
  intros Hfault. unfold tick. cbn [length seq sweep]. unfold update.
  cbn [lookup list_lookup]. unfold update_boid, forces. rewrite Hfault.
  reflexivity.
Qed.

(** C4: what the code does on the three degenerate inputs.  An attractor
    exactly at the subject's position is guarded and adds nothing.  Two
    coincident agents are not guarded: the tick raises ValueError from the
    normalisation of their zero difference.  An agent whose neighbours
    average to its own position is not guarded either: the tick raises
    ValueError from the normalisation of the zero cohesion offset.  Both
    faults arise for every noise function and every attractor list. *)
Theorem zero_length_normalize (pnoise1 : R -> R) (attractors : list Vec2) :
  (forall (cfg : Config) (self : Boid),
     attractor_step cfg self (position self) = Ok self)
  /\ tick main8 pnoise1 coincident_pair attractors = Raise ValueError
  /\ tick main8 pnoise1 symmetric_triple attractors = Raise ValueError.
Proof.
  split; [exact attractor_step_coincident |]. split.
  - apply tick_first_faults. unfold apply_rules.
    cbn [rules_loop]. rewrite rules_step_self. cbn [bind].
    rewrite rules_step_coincident; [reflexivity | lia | reflexivity | | ];
      simpl; lra.
  - apply tick_first_faults. unfold apply_rules.
    cbn [rules_loop]. rewrite rules_step_self. cbn [bind].
    assert (Hl : Vector2.distance_to (Vector2.mk 100 100) (Vector2.mk 90 100)
                 = 10).
    { rewrite distance_to_horizontal. rewrite Rabs_left; lra. }
    assert (Hr : Vector2.distance_to (Vector2.mk 100 100) (Vector2.mk 110 100)
                 = 10).
    { rewrite distance_to_horizontal. rewrite Rabs_pos_eq; lra. }
    rewrite rules_step_near;
      [| lia
       | cbn [position set_acceleration new_boid]; rewrite Hl; simpl; lra ..].
    cbn [bind].
    rewrite rules_step_near;
      [| lia
       | cbn [position set_acceleration new_boid]; rewrite Hr; simpl; lra ..].
    cbn [bind total no_flock Nat.ltb Nat.leb].
    rewrite div_ok by (simpl; lra). cbn [bind].
    rewrite div_ok by (simpl; lra). cbn [bind].
    rewrite normalize_zero; [reflexivity |].
    cbn [cohesion no_flock position set_acceleration accelerate new_boid
         Vector2.add Vector2.zero Vector2.x Vector2.y].
    match goal with
    | |- Vector2.length ?v = 0 =>
        replace v with (Vector2.sub (Vector2.mk 100 100) (Vector2.mk 100 100))
    end.
    + apply length_sub_self.
    + unfold Vector2.sub. cbn [Vector2.x Vector2.y]. simpl. f_equal; lra.
Qed.

(** ** The speed after a whole update *)

Lemma update_color_ok (cfg : Config) (boids : list Boid) (i : nat)
  (self : Boid) :
  PERCEPTION_RADIUS cfg <> 0 ->
  PROXIMITY_NORMALIZATION cfg <> 0 ->
  MAX_SPEED cfg <> 0 ->
  exists c : Z * Z * Z, update_color cfg boids i self = Ok (set_color self c).
Proof.
  intros Hp Hn Hm. unfold update_color.
  rewrite (fdiv_ok _ _ Hp). cbn [bind].
  rewrite (fdiv_ok _ _ Hn). cbn [bind].
  rewrite fdiv_ok by (unfold ACCELERATION_UPPER_EXPECTED; lra). cbn [bind].
  rewrite (fdiv_ok _ _ Hm). cbn [bind].
  destruct (BASE_COLOR cfg) as [[r g] b]. eexists. reflexivity.
Qed.

Lemma move_moving (cfg : Config) (self : Boid) :
  0 < MAX_SPEED cfg ->
  MASS_EQUIVALENT cfg <> 0 ->
  Vector2.length (inertia cfg self) <> 0 ->
  let v' := Vector2.mul (unit_of (inertia cfg self))
              (relaxed cfg (Vector2.length (inertia cfg self))) in
  move cfg self
  = Ok (set_position (set_velocity self v') (Vector2.add (position self) v')).
Proof.
  intros Hmax Hmass Hv v'. unfold move.
  rewrite div_ok by exact Hmass. cbn [bind]. fold (inertia cfg self).
  rewrite regulate_speed_moving by assumption. reflexivity.
Qed.

(** Once the forces are known, the speed an update leaves the agent with is
    0.95 times the relaxed speed, cap or no cap. *)
Lemma update_boid_speed (cfg : Config) (pnoise1 : R -> R) (boids : list Boid)
  (attractors : list Vec2) (i : nat) (self pushed : Boid) :
  forces cfg pnoise1 boids attractors i self = Ok pushed ->
  0 < MAX_SPEED cfg ->
  0 <= START_SPEED cfg ->
  0 <= SPEED_ADJUSTMENT_FACTOR cfg <= 1 ->
  MASS_EQUIVALENT cfg <> 0 ->
  PERCEPTION_RADIUS cfg <> 0 ->
  PROXIMITY_NORMALIZATION cfg <> 0 ->
  Vector2.length (inertia cfg pushed) <> 0 ->
  exists self' : Boid,
    update_boid cfg pnoise1 boids attractors i self = Ok self'
    /\ Vector2.length (velocity self')
       = 0.95 * relaxed cfg (Vector2.length (inertia cfg pushed)).
Proof.
  intros Hforces Hmax Hstart Hfactor Hmass Hp Hn Hv.
  unfold update_boid. rewrite Hforces. cbn [bind].
  rewrite move_moving by assumption. cbn [bind].
  match goal with
  | |- context [update_color cfg boids i ?s] =>
      destruct (update_color_ok cfg boids i s) as [c Hc];
        [assumption | assumption | lra | rewrite Hc]
  end.
  cbn [bind]. eexists. split; [reflexivity |].
  cbn [damp velocity set_velocity set_color set_position].
  rewrite !length_mul, length_unit_of by exact Hv.
  pose proof (length_nonneg (inertia cfg pushed)) as Hlen.
  rewrite (Rabs_pos_eq (relaxed _ _)) by (unfold relaxed; nra).
  rewrite Rabs_pos_eq; lra.
Qed.

(** Where the cap does not fire the bound holds: a speed of at most
    MAX_SPEED after the inertia update leaves the agent below
    0.95 * MAX_SPEED. *)
Lemma update_boid_below_cap (cfg : Config) (pnoise1 : R -> R)
  (boids : list Boid) (attractors : list Vec2) (i : nat) (self pushed : Boid) :
  forces cfg pnoise1 boids attractors i self = Ok pushed ->
  0 < MAX_SPEED cfg ->
  0 <= START_SPEED cfg <= MAX_SPEED cfg ->
  0 <= SPEED_ADJUSTMENT_FACTOR cfg <= 1 ->
  MASS_EQUIVALENT cfg <> 0 ->
  PERCEPTION_RADIUS cfg <> 0 ->
  PROXIMITY_NORMALIZATION cfg <> 0 ->
  0 < Vector2.length (inertia cfg pushed) <= MAX_SPEED cfg ->
  exists self' : Boid,
    update_boid cfg pnoise1 boids attractors i self = Ok self'
    /\ Vector2.length (velocity self') <= 0.95 * MAX_SPEED cfg.
Proof.
  intros Hforces Hmax Hstart Hfactor Hmass Hp Hn Hv.
  destruct (update_boid_speed cfg pnoise1 boids attractors i self pushed)
    as (self' & Hup & Hlen); try assumption; try lra.
  exists self'. split; [exact Hup |]. rewrite Hlen. unfold relaxed. nra.
Qed.

Lemma forces_alone (cfg : Config) (pnoise1 : R -> R) (other self : Boid)
  (attractors : list Vec2) :
  forces cfg pnoise1 [other] attractors 0 self
  = apply_attractors cfg
      (add_noise cfg pnoise1
         (avoid_edges cfg (set_acceleration self Vector2.zero)))
      attractors.
Proof.
  unfold forces. rewrite apply_rules_far; [reflexivity |].
  intros [| j] boid Hj Hne; [now contradiction Hne | now destruct j].
Qed.

Lemma edge_force_inside (cfg : Config) (p : Vec2) :
  BOUNDARY_PERCEPTION cfg <= Vector2.x p <= SCREEN_WIDTH cfg - BOUNDARY_PERCEPTION cfg ->
  BOUNDARY_PERCEPTION cfg <= Vector2.y p <= SCREEN_HEIGHT cfg - BOUNDARY_PERCEPTION cfg ->
  edge_force cfg p = Vector2.zero.
Proof.
  intros Hx Hy. unfold edge_force.
  rewrite !flt_false, !fgt_false by lra. reflexivity.
Qed.

Lemma tick_single (cfg : Config) (pnoise1 : R -> R) (self self' : Boid)
  (attractors : list Vec2) :
  update_boid cfg pnoise1 [self] attractors 0 self = Ok self' ->
  tick cfg pnoise1 [self] attractors = Ok [self'].
Proof.
  intros Hup. unfold tick. cbn [length seq sweep]. unfold update.
  cbn [lookup list_lookup]. rewrite Hup. reflexivity.
Qed.

Lemma chaser_forces (pnoise1 : R -> R) :
  forces main8 pnoise1 [chaser] [Vector2.mk 100 100] 0 chaser
  = Ok (set_noise_offsets
          (set_acceleration chaser
             (Vector2.mk (pnoise1 0 * 0.225 + 20) (pnoise1 0 * 0.225)))
          (0 + 0.01) (0 + 0.01)).
Proof.
  rewrite forces_alone. cbn [apply_attractors]. unfold attractor_step.
  unfold avoid_edges.
  rewrite edge_force_inside
    by (unfold BOUNDARY_PERCEPTION; simpl; lra).
  cbn [position add_noise set_noise_offsets accelerate set_acceleration
       chaser new_boid].
  replace (Vector2.sub (Vector2.mk 100 100) (Vector2.mk 99.75 100))
    with (Vector2.mk 0.25 0)
    by (unfold Vector2.sub; cbn [Vector2.x Vector2.y]; f_equal; lra).
  rewrite length_horizontal, (Rabs_pos_eq 0.25) by lra.
  rewrite fne_true by lra.
  change (ATTRACTOR_FORCE_DISTANCE_EXP main8) with (-1)%Z.
  rewrite powerRZ_minus_one.
  rewrite fdiv_ok by (simpl; lra). cbn [bind].
  rewrite normalize_horizontal by lra. cbn [bind].
  cbn [ATTRACTOR_FORCE ATTRACTOR_FORCE_MAX MASS_EQUIVALENT RANDOMNESS_WEIGHT
       main8].
  replace (10 * / 0.25 / 2) with 20 by lra.
  rewrite Rmin_left by lra.
  unfold add_noise, accelerate, set_acceleration, set_noise_offsets.
  cbn [position velocity acceleration color cohesion_weight alignment_weight
       separation_weight noise_offset_x noise_offset_y chaser new_boid].
  f_equal. f_equal.
  unfold Vector2.add, Vector2.mul, Vector2.zero.
  cbn [Vector2.x Vector2.y RANDOMNESS_WEIGHT main8].
  f_equal; lra.
Qed.

(** C1 on the code: the agent [chaser], alone in the main8 world with one
    attractor at (100,100), for any noise function with values in [-1,1].
    The tick returns, and the agent's speed after it exceeds MAX_SPEED: the
    attractor's pull takes the speed above the cap, and the relaxation then
    rescales the capped velocity from the speed measured before the cap. *)
Theorem update_overshoots_max_speed (pnoise1 : R -> R) :
  (forall t : R, -1 <= pnoise1 t <= 1) ->
  exists self' : Boid,
    tick main8 pnoise1 [chaser] [Vector2.mk 100 100] = Ok [self']
    /\ MAX_SPEED main8 < Vector2.length (velocity self').
Proof.
  intros Hnoise.
  pose proof (chaser_forces pnoise1) as Hforces.
  set (pushed := set_noise_offsets _ _ _) in Hforces.
  assert (Hspeed : 12 <= Vector2.length (inertia main8 pushed)).
  { eapply Rle_trans; [| apply length_ge_x].
    unfold inertia, pushed.
    cbn [velocity acceleration set_noise_offsets set_acceleration chaser
         new_boid Vector2.add Vector2.x Vector2.y MASS_EQUIVALENT main8].
    specialize (Hnoise 0). rewrite Rabs_pos_eq; lra. }
  destruct (update_boid_speed main8 pnoise1 [chaser] [Vector2.mk 100 100] 0
              chaser pushed Hforces) as (self' & Hup & Hlen);
    try (simpl; lra).
  exists self'. split; [now apply tick_single |].
  rewrite Hlen. unfold relaxed. simpl. lra.
Qed.

(** The same agent under the noise function that is zero everywhere. *)
Lemma update_overshoots_max_speed_witness :
  exists self' : Boid,
    tick main8 (fun _ => 0) [chaser] [Vector2.mk 100 100] = Ok [self']
    /\ 5 < Vector2.length (velocity self').
Proof.
  apply (update_overshoots_max_speed (fun _ => 0)).
  intros t. lra.
Defined.

(** ** Field sampler *)

Lemma Int_part_zero : Int_part 0 = 0%Z.
Proof.
  unfold Int_part. rewrite <- (tech_up 0 1); [reflexivity | simpl; lra ..].
Qed.

Lemma int_zero : int 0 = 0%Z.
Proof.
  unfold int. destruct (Rle_dec 0 0); [apply Int_part_zero | lra].
Qed.

Lemma int_byte (a : R) : 0 <= a <= 255 -> (0 <= int a <= 255)%Z.
Proof.
  intros [Hlo Hhi]. unfold int. destruct (Rle_dec 0 a); [| contradiction].
  destruct (base_Int_part a) as [Hle Hgt]. split.
  - assert (H : (-1 < Int_part a)%Z) by (apply lt_IZR; simpl; lra). lia.
  - apply le_IZR. lra.
Qed.

Lemma cell_brightness_byte (cfg : Config) (attractors : list Vec2) (gx gy : R) :
  (0 <= cell_brightness cfg attractors gx gy <= 255)%Z.
Proof.
  unfold cell_brightness.
  destruct (fold_left (sample_step cfg gx gy) attractors (0, 0)) as [fx fy].
  apply int_byte. split.
  - apply Rmin_glb; [apply Rmax_r | lra].
  - apply Rmin_r.
Qed.

Lemma cell_brightness_no_attractors (cfg : Config) (gx gy : R) :
  cell_brightness cfg [] gx gy = 0%Z.
Proof.
  unfold cell_brightness. cbn [fold_left].
  replace (0 ^ 2 + 0 ^ 2) with 0 by (simpl; lra). rewrite sqrt_0.
  replace (0 / ATTRACTOR_FORCE_MAX cfg * ATTRACTOR_COLOR_FACTOR cfg * 255)
    with 0 by (unfold Rdiv; lra).
  rewrite Rmax_left by lra. rewrite Rmin_left by lra. apply int_zero.
Qed.

Lemma cell_of_background (cfg : Config) (attractors : list Vec2) (b : Z) :
  cell_of (compute_background_surface cfg attractors) b ->
  exists gx gy : R, b = cell_brightness cfg attractors gx gy.
Proof.
  intros (row & Hrow & Hb). unfold compute_background_surface in Hrow.
  apply in_map_iff in Hrow as (gy & <- & _).
  apply in_map_iff in Hb as (gx & <- & _).
  now exists gx, gy.
Qed.

(** C10.  [compute_background_surface] is a function of the configuration
    (world bounds and attractor constants) and of the attractors' positions
    alone: two attractor lists with the same coordinates, in the same order,
    give the same grid.  Every cell of every grid is a byte, 0 at least; and
    when there is no attractor every cell of the grid is 0, the minimum.
    ATTRACTOR_FORCE_MAX is taken non-zero: numpy divides by it without
    raising, and a zero divisor leaves the real-number reading. *)
Theorem field_sampler_pure (cfg : Config) :
  ATTRACTOR_FORCE_MAX cfg <> 0 ->
  (forall attractors attractors' : list Vec2,
     Forall2 (fun a a' => Vector2.x a = Vector2.x a'
                          /\ Vector2.y a = Vector2.y a')
             attractors attractors' ->
     compute_background_surface cfg attractors
     = compute_background_surface cfg attractors')
  /\ (forall (attractors : list Vec2) (b : Z),
        cell_of (compute_background_surface cfg attractors) b ->
        (0 <= b <= 255)%Z)
  /\ (forall b : Z, cell_of (compute_background_surface cfg []) b -> b = 0%Z).
Proof.
  intros _. split; [| split].
  - intros attractors attractors' Hsame.
    assert (Heq : attractors = attractors').
    { induction Hsame as [| [ax ay] [ax' ay'] l l' [Hx Hy] _ IH];
        [reflexivity |].
      simpl in Hx, Hy. now subst. }
    now rewrite Heq.
  - intros attractors b Hb.
    apply cell_of_background in Hb as (gx & gy & ->).
    apply cell_brightness_byte.
  - intros b Hb.
    apply cell_of_background in Hb as (gx & gy & ->).
    apply cell_brightness_no_attractors.
Qed.

Lemma int_IZR (z : Z) : (0 <= z)%Z -> int (IZR z) = z.
Proof.
  intros Hz. unfold int. destruct (Rle_dec 0 (IZR z)) as [_ | Hneg].
  - unfold Int_part. rewrite <- (tech_up (IZR z) (z + 1)).
    + lia.
    + rewrite plus_IZR. simpl. lra.
    + rewrite plus_IZR. simpl. lra.
  - exfalso. apply Hneg. now apply IZR_le.
Qed.

Lemma linspace_first (start stop : R) (num : nat) :
  (0 < num)%nat -> In (start + INR 0 * ((stop - start) / (INR num - 1)))
                      (linspace start stop num).
Proof.
  intros Hnum. unfold linspace.
  apply (in_map (fun k => start + INR k * ((stop - start) / (INR num - 1)))).
  apply in_seq. lia.
Qed.

(** The main8 grid has 250 rows of 375 cells; with no attractor its first
    cell, and every other, is 0. *)
Lemma field_sampler_pure_witness :
  cell_of (compute_background_surface main8 [])
          (cell_brightness main8 [] (0 + INR 0 * ((1500 - 0) / (INR 375 - 1)))
                                    (0 + INR 0 * ((1000 - 0) / (INR 250 - 1))))
  /\ cell_brightness main8 [] (0 + INR 0 * ((1500 - 0) / (INR 375 - 1)))
                              (0 + INR 0 * ((1000 - 0) / (INR 250 - 1)))
     = 0%Z.
Proof.
  assert (Hcell : cell_of (compute_background_surface main8 [])
            (cell_brightness main8 []
               (0 + INR 0 * ((1500 - 0) / (INR 375 - 1)))
               (0 + INR 0 * ((1000 - 0) / (INR 250 - 1))))).
  { unfold cell_of, compute_background_surface.
    cbn [SCREEN_WIDTH SCREEN_HEIGHT BG_SCALE main8].
    replace (1500 * 0.25) with (IZR 375) by lra.
    replace (1000 * 0.25) with (IZR 250) by lra.
    rewrite !int_IZR by lia.
    change (Z.to_nat 375) with 375%nat. change (Z.to_nat 250) with 250%nat.
    eexists. split.
    - apply (in_map (fun gy => map (fun gx => cell_brightness main8 [] gx gy)
                                   (linspace 0 1500 375))).
      apply (linspace_first 0 1000 250). lia.
    - apply (in_map (fun gx => cell_brightness main8 [] gx _)).
      apply (linspace_first 0 1500 375). lia. }
  split; [exact Hcell |].
  destruct (field_sampler_pure main8) as (_ & _ & Hzero).
  - simpl. lra.
  - now apply Hzero.
Defined.

(** ** The sweep reads the agents already updated *)

Lemma sweep_in_order (cfg : Config) (pnoise1 : R -> R)
  (attractors : list Vec2) (todo : list Boid) :
  forall done : list Boid,
    sweep cfg pnoise1 (seq (length done) (length todo)) (done ++ todo)
          attractors
    = in_order_loop cfg pnoise1 attractors done todo.
Proof.
  induction todo as [| self rest IH]; intros done.
  - cbn [length seq sweep in_order_loop]. now rewrite app_nil_r.
  - cbn [length seq sweep in_order_loop]. unfold update.
    rewrite list_lookup_middle by reflexivity.
    destruct (update_boid cfg pnoise1 (done ++ self :: rest) attractors
                (length done) self) as [self' | e]; [| reflexivity].
    cbn [bind].
    replace (length done) with (length done + 0)%nat at 2 by lia.
    rewrite insert_app_r. cbn [insert list_insert].
    specialize (IH (done ++ [self'])).
    rewrite length_app in IH. cbn [length] in IH.
    rewrite Nat.add_1_r in IH. rewrite <- app_assoc in IH. exact IH.
Qed.

(** The full result of an update whose forces are known, for a moving
    agent. *)
Lemma update_boid_result (cfg : Config) (pnoise1 : R -> R) (boids : list Boid)
  (attractors : list Vec2) (i : nat) (self pushed : Boid) :
  forces cfg pnoise1 boids attractors i self = Ok pushed ->
  0 < MAX_SPEED cfg ->
  MASS_EQUIVALENT cfg <> 0 ->
  PERCEPTION_RADIUS cfg <> 0 ->
  PROXIMITY_NORMALIZATION cfg <> 0 ->
  Vector2.length (inertia cfg pushed) <> 0 ->
  let v' := Vector2.mul (unit_of (inertia cfg pushed))
              (relaxed cfg (Vector2.length (inertia cfg pushed))) in
  exists c : Z * Z * Z,
    update_boid cfg pnoise1 boids attractors i self
    = Ok (damp (set_color
                  (set_position (set_velocity pushed v')
                                (Vector2.add (position pushed) v')) c)).
Proof.
  intros Hforces Hmax Hmass Hp Hn Hv v'.
  unfold update_boid. rewrite Hforces. cbn [bind].
  rewrite move_moving by assumption. cbn [bind]. fold v'.
  match goal with
  | |- context [update_color cfg boids i ?s] =>
      destruct (update_color_ok cfg boids i s) as [c Hc];
        [assumption | assumption | lra | rewrite Hc]
  end.
  cbn [bind]. now exists c.
Qed.

(** The acceleration an update leaves in the agent is the one its forces
    computed. *)
Lemma update_boid_acceleration (cfg : Config) (pnoise1 : R -> R)
  (boids : list Boid) (attractors : list Vec2) (i : nat)
  (self pushed self' : Boid) :
  forces cfg pnoise1 boids attractors i self = Ok pushed ->
  update_boid cfg pnoise1 boids attractors i self = Ok self' ->
  acceleration self' = acceleration pushed.
Proof.
  intros Hforces. unfold update_boid. rewrite Hforces. cbn [bind].
  unfold move.
  destruct (Vector2.div (acceleration pushed) (MASS_EQUIVALENT cfg))
    as [dv | e]; [| discriminate]. cbn [bind].
  destruct (regulate_speed cfg (Vector2.add (velocity pushed) dv))
    as [v | e]; [| discriminate]. cbn [bind].
  unfold update_color.
  repeat match goal with
         | |- context [fdiv ?a ?b] =>
             destruct (fdiv a b); [| discriminate]; cbn [bind]
         end.
  destruct (BASE_COLOR cfg) as [[r g] b].
  intros [= <-]. reflexivity.
Qed.

Lemma forces_far_no_attractors (cfg : Config) (pnoise1 : R -> R)
  (boids : list Boid) (i : nat) (self : Boid) :
  (forall j boid, boids !! j = Some boid -> j <> i ->
     PERCEPTION_RADIUS cfg
     <= Vector2.distance_to (position self) (position boid)) ->
  forces cfg pnoise1 boids [] i self
  = Ok (add_noise cfg pnoise1
          (avoid_edges cfg (set_acceleration self Vector2.zero))).
Proof.
  intros Hfar. unfold forces.
  rewrite apply_rules_far by exact Hfar. reflexivity.
Qed.

(** An agent that cruises on the line, away from the edges, perceives nobody
    and draws the noise value 0: it advances by 2.25 and is damped to
    2.1375, with a zero acceleration. *)
Lemma cruise_update (pnoise1 : R -> R) (boids : list Boid) (i : nat) (px : R) :
  pnoise1 0 = 0 ->
  30 <= px <= 1470 ->
  (forall j boid, boids !! j = Some boid -> j <> i ->
     30 <= Vector2.distance_to (Vector2.mk px 100) (position boid)) ->
  exists self' : Boid,
    update_boid main8 pnoise1 boids [] i
                (new_boid (Vector2.mk px 100) (Vector2.mk 2.25 0))
    = Ok self'
    /\ position self' = Vector2.mk (px + 2.25) 100
    /\ velocity self' = Vector2.mk 2.1375 0
    /\ acceleration self' = Vector2.mk 0 0.
Proof.
  intros Hnoise Hpx Hfar.
  pose proof (forces_far_no_attractors main8 pnoise1 boids i
                (new_boid (Vector2.mk px 100) (Vector2.mk 2.25 0)) Hfar)
    as Hforces.
  set (pushed := add_noise _ _ _) in Hforces.
  assert (Hacc : acceleration pushed = Vector2.mk 0 0).
  { unfold pushed, add_noise, avoid_edges.
    rewrite edge_force_inside
      by (unfold BOUNDARY_PERCEPTION; simpl; lra).
    cbn [acceleration position accelerate set_acceleration set_noise_offsets
         noise_offset_x noise_offset_y new_boid].
    rewrite Hnoise. unfold Vector2.add, Vector2.mul, Vector2.zero.
    cbn [Vector2.x Vector2.y]. f_equal; lra. }
  assert (Hin : inertia main8 pushed = Vector2.mk 2.25 0).
  { unfold inertia. rewrite Hacc. unfold Vector2.add.
    cbn [Vector2.x Vector2.y]. simpl. f_equal; lra. }
  assert (Hlen : Vector2.length (Vector2.mk 2.25 0) = 2.25).
  { rewrite length_horizontal. apply Rabs_pos_eq. lra. }
  destruct (update_boid_result main8 pnoise1 boids [] i _ pushed Hforces)
    as [c Hup]; try (simpl; lra).
  { rewrite Hin, Hlen. lra. }
  rewrite Hin in Hup. unfold unit_of in Hup. rewrite Hlen in Hup.
  eexists. split; [exact Hup |].
  cbn [damp position velocity acceleration set_velocity set_color set_position].
  split; [| split].
  - unfold Vector2.add, Vector2.mul, relaxed. simpl. f_equal; lra.
  - unfold Vector2.mul, relaxed. simpl. f_equal; lra.
  - exact Hacc.
Qed.

(** [front] once the state of [rear] has been overwritten by an agent at
    (102.25,100) with velocity (2.1375,0): now 27.75 apart, [front]
    perceives it and its forces have a positive x component. *)
Lemma front_forces_after (pnoise1 : R -> R) (moved : Boid) :
  pnoise1 0 = 0 ->
  position moved = Vector2.mk 102.25 100 ->
  velocity moved = Vector2.mk 2.1375 0 ->
  exists pushed : Boid,
    forces main8 pnoise1 [moved; front] [] 1 front = Ok pushed
    /\ 0 < Vector2.x (acceleration pushed).
Proof.
  intros Hnoise Hpos Hvel.
  assert (Hd : Vector2.distance_to (Vector2.mk 130 100) (Vector2.mk 102.25 100)
               = 27.75).
  { rewrite distance_to_horizontal. rewrite Rabs_left; lra. }
  assert (Hlen : Vector2.length
                   (Vector2.sub (Vector2.mk 130 100) (Vector2.mk 102.25 100))
                 = 27.75).
  { rewrite <- distance_to_sub. exact Hd. }
  unfold forces, apply_rules. cbn [rules_loop].
  rewrite rules_step_near;
    [| lia
     | cbn [position set_acceleration front new_boid]; rewrite Hpos, Hd;
       simpl; lra ..].
  cbn [bind]. rewrite rules_step_self. cbn [bind].
  cbn [total no_flock Nat.ltb Nat.leb].
  rewrite div_ok by (simpl; lra). cbn [bind].
  rewrite div_ok by (simpl; lra). cbn [bind].
  cbn [cohesion alignment separation no_flock position set_acceleration
       accelerate front new_boid].
  rewrite Hpos, Hvel, Hd.
  replace (Vector2.sub
             (Vector2.mk
                (Vector2.x (Vector2.add Vector2.zero (Vector2.mk 102.25 100))
                 / INR 1)
                (Vector2.y (Vector2.add Vector2.zero (Vector2.mk 102.25 100))
                 / INR 1))
             (Vector2.mk 130 100))
    with (Vector2.mk (-27.75) 0)
    by (unfold Vector2.sub, Vector2.add, Vector2.zero; simpl; f_equal; lra).
  rewrite normalize_horizontal_neg by lra. cbn [bind].
  eexists. split; [reflexivity |].
  unfold add_noise, avoid_edges.
  rewrite edge_force_inside
    by (unfold BOUNDARY_PERCEPTION; simpl; lra).
  cbn [acceleration position accelerate set_acceleration set_noise_offsets
       noise_offset_x noise_offset_y cohesion_weight alignment_weight
       separation_weight front new_boid].
  rewrite Hnoise. unfold unit_of. rewrite Hlen.
  unfold Vector2.add, Vector2.mul, Vector2.sub, Vector2.zero. simpl. lra.
Qed.

(** C2, as the code has it.  The sweep of the main loop updates the agents
    in place and in list order: agent [j] is updated against the agents
    before it as this tick has already left them and the agents after it
    as the previous tick left them.  The tick (faults included) is the
    in-order loop started with nothing done. *)
Theorem tick_in_order (cfg : Config) (pnoise1 : R -> R) (boids : list Boid)
  (attractors : list Vec2) :
  tick cfg pnoise1 boids attractors
  = in_order_loop cfg pnoise1 attractors [] boids.
Proof.
  unfold tick. apply (sweep_in_order cfg pnoise1 attractors boids []).
Qed.

(** [rear] and [front] under the noise function that is zero everywhere and
    without attractors.  Against the snapshot, [front] perceives nobody and
    keeps a zero acceleration; in the sweep, [rear] has already advanced to
    27.75 behind [front], which perceives it and gets a non-zero
    acceleration (or faults). *)
Lemma sweep_differs_from_snapshot :
  tick main8 (fun _ => 0) [rear; front] []
  <> tick_snapshot main8 (fun _ => 0) [rear; front] [].
Proof.
  set (still := fun _ : R => 0).
  assert (Hgap : Vector2.distance_to (Vector2.mk 100 100) (Vector2.mk 130 100)
                 = 30).
  { rewrite distance_to_horizontal. rewrite Rabs_pos_eq; lra. }
  destruct (cruise_update still [rear; front] 0 100) as
    (rear' & Hrear & Hpos & Hvel & _); [reflexivity | lra | |].
  { intros [| [| j]] boid Hj Hne;
      [now contradiction Hne | | now destruct j].
    injection Hj as <-. cbn [position front new_boid]. rewrite Hgap. lra. }
  destruct (cruise_update still [rear; front] 1 130) as
    (front_snap & Hfront & _ & _ & Hacc); [reflexivity | lra | |].
  { intros [| [| j]] boid Hj Hne;
      [| now contradiction Hne | now destruct j].
    injection Hj as <-. cbn [position rear new_boid].
    rewrite distance_to_sym, Hgap. lra. }
  destruct (front_forces_after still rear') as (pushed & Hforces & Hx);
    [reflexivity | rewrite Hpos; f_equal; lra | exact Hvel |].
  change (tick main8 still [rear; front] [])
    with (sweep main8 still (seq (length (@nil Boid)) (length [rear; front]))
            ([] ++ [rear; front]) []).
  rewrite sweep_in_order. unfold tick_snapshot.
  cbn [in_order_loop snapshot_loop app length].
  fold rear in Hrear. fold front in Hfront.
  rewrite Hrear, Hfront. cbn [bind app length].
  destruct (update_boid main8 still [rear'; front] [] 1 front)
    as [front_seq | e] eqn:Hseq; cbn [bind]; [| discriminate].
  intros [= Heq].
  pose proof (update_boid_acceleration main8 still [rear'; front] [] 1
                front pushed front_seq Hforces Hseq) as Hsame.
  rewrite Heq, Hacc in Hsame. rewrite <- Hsame in Hx. simpl in Hx. lra.
Qed.

(** * Further properties of the code *)

(** ** The neighbour scan *)

Lemma length_sub_zero_inv (a b : Vec2) :
  Vector2.length (Vector2.sub a b) = 0 -> a = b.
Proof.
  intros H. apply length_zero_inv in H. destruct a as [ax ay], b as [bx by'].
  unfold Vector2.sub, Vector2.zero in H. cbn [Vector2.x Vector2.y] in H.
  injection H as Hx Hy. f_equal; lra.
Qed.

Lemma add_zero_l (a : Vec2) : Vector2.add Vector2.zero a = a.
Proof. destruct a. unfold Vector2.add, Vector2.zero. simpl. f_equal; lra. Qed.

Lemma rules_step_raise (cfg : Config) (self boid : Boid) (i j : nat)
  (acc : Flock) (e : exn) :
  rules_step cfg self i j boid acc = Raise e ->
  e = ValueError /\ j <> i /\ position boid = position self.
Proof.
  unfold rules_step. destruct (Nat.eqb_spec j i) as [| Hne]; [discriminate |].
  destruct (flt _ (PERCEPTION_RADIUS cfg)); [| discriminate].
  destruct (flt _ (SEPARATION_RADIUS cfg)); [| discriminate].
  unfold Vector2.normalize, fne.
  destruct (Req_dec_T (Vector2.length
                         (Vector2.sub (position self) (position boid))) 0)
    as [Hz | Hnz].
  - cbn [bind]. intros [= <-]. repeat split; [exact Hne |].
    apply eq_sym. now apply length_sub_zero_inv.
  - cbn [bind]. rewrite div_ok by (rewrite distance_to_sub; exact Hnz).
    discriminate.
Qed.

Lemma rules_loop_raise (cfg : Config) (self : Boid) (i : nat)
  (boids : list Boid) (e : exn) :
  forall (j : nat) (acc : Flock),
    rules_loop cfg self i j boids acc = Raise e ->
    e = ValueError
    /\ exists (k : nat) (boid : Boid),
         boids !! k = Some boid /\ (j + k)%nat <> i
         /\ position boid = position self.
Proof.
  induction boids as [| boid rest IH]; intros j acc; [discriminate |].
  cbn [rules_loop].
  destruct (rules_step cfg self i j boid acc) as [acc' | e'] eqn:Hstep;
    cbn [bind].
  - intros Hrest. destruct (IH _ _ Hrest) as (He & k & b & Hk & Hne & Hpos).
    split; [exact He |]. exists (S k), b.
    split; [exact Hk |]. split; [lia | exact Hpos].
  - intros [= ->]. destruct (rules_step_raise _ _ _ _ _ _ _ Hstep)
      as (He & Hne & Hpos).
    split; [exact He |]. exists 0%nat, boid.
    split; [reflexivity |]. split; [lia | exact Hpos].
Qed.

Lemma fold_add_shift (l : list Vec2) (a : Vec2) :
  fold_left Vector2.add l a = Vector2.add a (vsum l).
Proof.
  unfold vsum. revert a.
  induction l as [| v l IH]; intros a; cbn [fold_left].
  - now rewrite add_zero_r.
  - rewrite IH. rewrite (IH (Vector2.add Vector2.zero v)).
    destruct a, v, (fold_left Vector2.add l Vector2.zero).
    unfold Vector2.add, Vector2.zero. cbn [Vector2.x Vector2.y].
    f_equal; lra.
Qed.

Lemma rules_loop_bookkeeping (cfg : Config) (self : Boid) (i : nat)
  (boids : list Boid) :
  forall (j : nat) (acc acc' : Flock),
    rules_loop cfg self i j boids acc = Ok acc' ->
    let near := perceived cfg self i j boids in
    total acc' = (total acc + length near)%nat
    /\ alignment acc' = Vector2.add (alignment acc) (vsum (map velocity near))
    /\ cohesion acc' = Vector2.add (cohesion acc) (vsum (map position near)).
Proof.
  induction boids as [| boid rest IH]; intros j acc acc'.
  - intros [= <-]. cbn. rewrite !add_zero_r. split; [lia | now split].
  - cbn [rules_loop perceived]. unfold rules_step.
    destruct (Nat.eqb j i); cbn [bind]; [apply IH |].
    destruct (flt _ (PERCEPTION_RADIUS cfg)) eqn:Hnear; cbn [bind];
      [| apply IH].
    match goal with
    | |- context [bind (bind ?c _) _] => destruct c as [sep | e]; cbn [bind]
    end; [| discriminate].
    intros Hrest. pose proof (IH _ _ _ Hrest) as Hnext. cbv zeta in Hnext.
    destruct Hnext as (Ht & Ha & Hc).
    cbn [total alignment cohesion] in Ht, Ha, Hc.
    cbv zeta. cbn [length map]. split; [lia |].
    unfold vsum in *. cbn [fold_left].
    rewrite Ha, Hc.
    rewrite (fold_add_shift _ (Vector2.add Vector2.zero (velocity boid))).
    rewrite (fold_add_shift _ (Vector2.add Vector2.zero (position boid))).
    unfold vsum.
    destruct (alignment acc), (cohesion acc), (velocity boid), (position boid),
      (fold_left Vector2.add
         (map velocity (perceived cfg self i (S j) rest)) Vector2.zero),
      (fold_left Vector2.add
         (map position (perceived cfg self i (S j) rest)) Vector2.zero).
    unfold Vector2.add, Vector2.zero. cbn [Vector2.x Vector2.y].
    split; f_equal; lra.
Qed.

(** X1.  When the neighbour scan of [apply_rules] returns, its count is the
    number of other agents closer than PERCEPTION_RADIUS, its alignment
    accumulator is the sum of their velocities and its cohesion accumulator
    the sum of their positions. *)
Theorem rules_loop_counts_perceived (cfg : Config) (boids : list Boid)
  (i : nat) (self : Boid) (acc : Flock) :
  rules_loop cfg self i 0 boids no_flock = Ok acc ->
  let near := perceived cfg self i 0 boids in
  total acc = length near
  /\ alignment acc = vsum (map velocity near)
  /\ cohesion acc = vsum (map position near).
Proof.
  intros Hloop near.
  pose proof (rules_loop_bookkeeping cfg self i boids 0 no_flock acc Hloop)
    as Hbook. cbv zeta in Hbook. destruct Hbook as (Ht & Ha & Hc).
  fold near in Ht, Ha, Hc. cbn [total alignment cohesion no_flock] in Ht, Ha, Hc.
  split; [exact Ht |]. rewrite Ha, Hc, !add_zero_l. now split.
Qed.

(** Two agents of the main8 world 10 apart: the scan of the first counts
    one neighbour. *)
Lemma rules_loop_counts_perceived_witness :
  exists acc : Flock,
    rules_loop main8 (new_boid (Vector2.mk 100 100) (Vector2.mk 1 0)) 0 0
      [new_boid (Vector2.mk 100 100) (Vector2.mk 1 0);
       new_boid (Vector2.mk 110 100) (Vector2.mk 0 1)] no_flock
    = Ok acc
    /\ total acc = 1%nat
    /\ alignment acc = vsum [Vector2.mk 0 1].
Proof.
  assert (Hd : Vector2.distance_to (Vector2.mk 100 100) (Vector2.mk 110 100)
               = 10).
  { rewrite distance_to_horizontal. rewrite Rabs_pos_eq; lra. }
  assert (Hrun : exists acc : Flock,
             rules_loop main8 (new_boid (Vector2.mk 100 100) (Vector2.mk 1 0))
               0 0
               [new_boid (Vector2.mk 100 100) (Vector2.mk 1 0);
                new_boid (Vector2.mk 110 100) (Vector2.mk 0 1)] no_flock
             = Ok acc).
  { cbn [rules_loop]. rewrite rules_step_self. cbn [bind].
    rewrite rules_step_near;
      [| lia | cbn [position new_boid]; rewrite Hd; simpl; lra ..].
    cbn [bind]. eexists. reflexivity. }
  destruct Hrun as [acc Hrun]. exists acc. split; [exact Hrun |].
  pose proof (rules_loop_counts_perceived main8 _ 0 _ acc Hrun) as Hcount.
  cbv zeta in Hcount. cbn [perceived Nat.eqb position new_boid] in Hcount.
  rewrite Hd in Hcount. rewrite flt_true in Hcount by (simpl; lra).
  destruct Hcount as (Ht & Ha & _). split; [exact Ht | exact Ha].
Defined.

(** X2.  [apply_rules] faults with ValueError only, and only on one of the
    two zero vectors it normalises without a guard: another agent of the
    population sits exactly at the subject's position, or the mean position
    of the perceived agents is the subject's own position. *)
Theorem apply_rules_faults_on_zero_vectors (cfg : Config) (boids : list Boid)
  (i : nat) (self : Boid) (e : exn) :
  apply_rules cfg boids i self = Raise e ->
  e = ValueError
  /\ ((exists (j : nat) (boid : Boid),
         boids !! j = Some boid /\ j <> i /\ position boid = position self)
      \/ (let near := perceived cfg self i 0 boids in
          near <> []
          /\ Vector2.div (vsum (map position near)) (INR (length near))
             = Ok (position self))).
Proof.
  unfold apply_rules.
  destruct (rules_loop cfg self i 0 boids no_flock) as [acc | e'] eqn:Hloop;
    cbn [bind].
  - pose proof (rules_loop_bookkeeping cfg self i boids 0 no_flock acc Hloop)
      as Hb.
    cbv zeta in Hb. destruct Hb as (Ht & _ & Hc).
    cbn [total cohesion no_flock] in Ht, Hc. rewrite add_zero_l in Hc.
    rewrite Nat.add_0_l in Ht.
    destruct (Nat.ltb_spec 0 (total acc)) as [Hpos | Hzero]; [| discriminate].
    assert (Hn : INR (total acc) <> 0) by (apply not_0_INR; lia).
    rewrite !div_ok by exact Hn. cbn [bind].
    cbn [position accelerate set_acceleration].
    unfold Vector2.normalize, fne.
    match goal with
    | |- context [Req_dec_T ?l 0] => destruct (Req_dec_T l 0) as [Hz | Hnz]
    end; cbn [bind]; [| discriminate].
    intros [= <-]. split; [reflexivity |]. right. cbv zeta.
    rewrite <- Ht. split.
    + intros Hnil. rewrite Hnil in Ht. cbn in Ht. lia.
    + rewrite <- Hc. rewrite div_ok by exact Hn. f_equal.
      now apply length_sub_zero_inv.
  - intros [= <-]. destruct (rules_loop_raise cfg self i boids e' 0 no_flock Hloop)
      as (He & k & b & Hk & Hne & Hpos).
    split; [exact He |]. left. now exists k, b.
Qed.

(** The coincident pair: the fault is a ValueError and the second agent is
    the one at the subject's position. *)
Lemma apply_rules_faults_on_zero_vectors_witness :
  apply_rules main8 coincident_pair 0
    (new_boid (Vector2.mk 100 100) (Vector2.mk 1 0))
  = Raise ValueError
  /\ ((exists (j : nat) (boid : Boid),
         coincident_pair !! j = Some boid /\ j <> 0%nat
         /\ position boid = Vector2.mk 100 100)
      \/ (let near := perceived main8
                        (new_boid (Vector2.mk 100 100) (Vector2.mk 1 0)) 0 0
                        coincident_pair in
          near <> []
          /\ Vector2.div (vsum (map position near)) (INR (length near))
             = Ok (Vector2.mk 100 100))).
Proof.
  assert (Hraise : apply_rules main8 coincident_pair 0
                     (new_boid (Vector2.mk 100 100) (Vector2.mk 1 0))
                   = Raise ValueError).
  { unfold apply_rules, coincident_pair. cbn [rules_loop].
    rewrite rules_step_self. cbn [bind].
    rewrite rules_step_coincident; [reflexivity | lia | reflexivity | |];
      simpl; lra. }
  split; [exact Hraise |].
  exact (proj2 (apply_rules_faults_on_zero_vectors main8 coincident_pair 0
                  _ ValueError Hraise)).
Defined.

(** X3.  The rules for a pair.  In a population of two agents A and B at a
    positive distance [d] smaller than both radii, [apply_rules] returns and
    adds to A's acceleration three terms: the unit vector from B to A scaled
    by [separation_weight / d], B's velocity scaled by the alignment
    weight, and the unit vector from A straight toward B scaled by the
    cohesion weight.  Nothing else in A changes. *)
Theorem apply_rules_pair (cfg : Config) (A B : Boid) :
  let d := Vector2.distance_to (position A) (position B) in
  let away := unit_of (Vector2.sub (position A) (position B)) in
  let toward := unit_of (Vector2.sub (position B) (position A)) in
  0 < d -> d < PERCEPTION_RADIUS cfg -> d < SEPARATION_RADIUS cfg ->
  apply_rules cfg [A; B] 0 A
  = Ok (set_acceleration A
          (Vector2.add
             (Vector2.add
                (Vector2.add (acceleration A)
                   (Vector2.mul away (separation_weight A / d)))
                (Vector2.mul (velocity B) (alignment_weight A)))
             (Vector2.mul toward (cohesion_weight A)))).
Proof.
  intros d away toward Hd Hp Hs.
  assert (Hlen : Vector2.length (Vector2.sub (position B) (position A)) = d)
    by reflexivity.
  unfold apply_rules. cbn [rules_loop]. rewrite rules_step_self. cbn [bind].
  rewrite rules_step_near by (auto; fold d; lra). cbn [bind]. fold d away.
  cbn [total no_flock Nat.ltb Nat.leb alignment cohesion separation].
  rewrite !div_ok by (simpl; lra). cbn [bind].
  cbn [position accelerate set_acceleration].
  replace (Vector2.sub _ (position A))
    with (Vector2.sub (position B) (position A)).
  2:{ destruct (position A), (position B).
      unfold Vector2.sub, Vector2.add, Vector2.zero. simpl. f_equal; field. }
  rewrite normalize_unit_of by (rewrite Hlen; lra). cbn [bind]. fold toward.
  unfold accelerate, set_acceleration.
  cbn [position velocity acceleration color cohesion_weight alignment_weight
       separation_weight noise_offset_x noise_offset_y].
  f_equal. f_equal.
  destruct (acceleration A), (velocity B), away, toward.
  unfold Vector2.add, Vector2.mul, Vector2.zero. simpl.
  f_equal; field; lra.
Qed.

(** Two agents of the main8 world 10 apart on a horizontal line. *)
Lemma apply_rules_pair_witness :
  exists self' : Boid,
    apply_rules main8
      [new_boid (Vector2.mk 100 100) (Vector2.mk 1 0);
       new_boid (Vector2.mk 110 100) (Vector2.mk 0 1)]
      0 (new_boid (Vector2.mk 100 100) (Vector2.mk 1 0))
    = Ok self'
    /\ velocity self' = Vector2.mk 1 0.
Proof.
  assert (Hd : Vector2.distance_to (Vector2.mk 100 100) (Vector2.mk 110 100)
               = 10).
  { rewrite distance_to_horizontal. rewrite Rabs_pos_eq; lra. }
  eexists. split.
  - apply (apply_rules_pair main8
             (new_boid (Vector2.mk 100 100) (Vector2.mk 1 0))
             (new_boid (Vector2.mk 110 100) (Vector2.mk 0 1)));
      cbn [position new_boid]; rewrite Hd; simpl; lra.
  - reflexivity.
Defined.

(** ** The attractor field *)

Lemma length_add_le (a b : Vec2) :
  Vector2.length (Vector2.add a b) <= Vector2.length a + Vector2.length b.
Proof.
  pose proof (length_nonneg a) as Ha. pose proof (length_nonneg b) as Hb.
  pose proof (length_nonneg (Vector2.add a b)) as Hab.
  pose proof (length_sqr a) as Sa. pose proof (length_sqr b) as Sb.
  pose proof (length_sqr (Vector2.add a b)) as Sab.
  pose proof (sqrt_cauchy (Vector2.x a) (Vector2.y a) (Vector2.x b)
                          (Vector2.y b)) as Hc.
  assert (Hdot : Vector2.x a * Vector2.x b + Vector2.y a * Vector2.y b
                 <= Vector2.length a * Vector2.length b).
  { unfold Vector2.length.
    replace (Vector2.x a * Vector2.x a + Vector2.y a * Vector2.y a)
      with (Rsqr (Vector2.x a) + Rsqr (Vector2.y a)) by (unfold Rsqr; lra).
    replace (Vector2.x b * Vector2.x b + Vector2.y b * Vector2.y b)
      with (Rsqr (Vector2.x b) + Rsqr (Vector2.y b)) by (unfold Rsqr; lra).
    exact Hc. }
  unfold Vector2.add in *. cbn [Vector2.x Vector2.y] in Sab.
  apply Rsqr_incr_0_var; [| lra]. unfold Rsqr. rewrite Sab.
  replace ((Vector2.length a + Vector2.length b)
           * (Vector2.length a + Vector2.length b))
    with (Vector2.length a * Vector2.length a
          + Vector2.length b * Vector2.length b
          + 2 * (Vector2.length a * Vector2.length b)) by ring.
  rewrite Sa, Sb. lra.
Qed.

Lemma accelerate_twice (self : Boid) (p q : Vec2) :
  accelerate (accelerate self p) q = accelerate self (Vector2.add p q).
Proof.
  unfold accelerate, set_acceleration.
  cbn [position velocity acceleration color cohesion_weight alignment_weight
       separation_weight noise_offset_x noise_offset_y].
  f_equal. destruct (acceleration self), p, q.
  unfold Vector2.add. cbn [Vector2.x Vector2.y]. f_equal; lra.
Qed.

(** What one attractor away from the subject adds. *)
Lemma attractor_step_apart (cfg : Config) (self : Boid) (attractor : Vec2) :
  let direction := Vector2.sub attractor (position self) in
  Vector2.length direction <> 0 ->
  MASS_EQUIVALENT cfg <> 0 ->
  attractor_step cfg self attractor
  = Ok (accelerate self
          (Vector2.mul (unit_of direction)
             (Rmin (ATTRACTOR_FORCE cfg
                    * powerRZ (Vector2.length direction)
                              (ATTRACTOR_FORCE_DISTANCE_EXP cfg)
                    / MASS_EQUIVALENT cfg)
                   (ATTRACTOR_FORCE_MAX cfg)))).
Proof.
  intros direction Hd Hm. unfold attractor_step. fold direction.
  rewrite fne_true by exact Hd. rewrite fdiv_ok by exact Hm. cbn [bind].
  rewrite normalize_unit_of by exact Hd. reflexivity.
Qed.

Lemma attractor_step_bounded (cfg : Config) (self : Boid) (attractor : Vec2) :
  0 <= ATTRACTOR_FORCE cfg ->
  0 < MASS_EQUIVALENT cfg ->
  0 <= ATTRACTOR_FORCE_MAX cfg ->
  exists pull : Vec2,
    attractor_step cfg self attractor = Ok (accelerate self pull)
    /\ Vector2.length pull <= ATTRACTOR_FORCE_MAX cfg.
Proof.
  intros Hf Hm Hmax.
  set (direction := Vector2.sub attractor (position self)).
  pose proof (length_nonneg direction) as Hlen.
  destruct (Req_dec_T (Vector2.length direction) 0) as [Hz | Hnz].
  - exists Vector2.zero. rewrite accelerate_zero, length_zero.
    split; [| exact Hmax].
    unfold attractor_step. fold direction. rewrite Hz. now rewrite fne_false.
  - eexists. split; [apply attractor_step_apart; [exact Hnz | lra] |].
    fold direction. rewrite length_mul, length_unit_of by exact Hnz.
    assert (Hraw : 0 <= ATTRACTOR_FORCE cfg
                        * powerRZ (Vector2.length direction)
                                  (ATTRACTOR_FORCE_DISTANCE_EXP cfg)
                        / MASS_EQUIVALENT cfg).
    { apply Rmult_le_pos.
      - apply Rmult_le_pos; [exact Hf |]. left. apply powerRZ_pos. lra.
      - left. now apply Rinv_0_lt_compat. }
    rewrite Rabs_pos_eq by (apply Rmin_glb; assumption).
    rewrite Rmult_1_l. apply Rmin_r.
Qed.

(** X4.  For a non-negative ATTRACTOR_FORCE and cap and a positive mass
    equivalent, [apply_attractors] returns for every list of attractors,
    those at the subject's own position included; it changes nothing but
    the acceleration, and the vector it adds is no longer than the number
    of attractors times ATTRACTOR_FORCE_MAX. *)
Theorem apply_attractors_bounded (cfg : Config) (attractors : list Vec2)
  (self : Boid) :
  0 <= ATTRACTOR_FORCE cfg ->
  0 < MASS_EQUIVALENT cfg ->
  0 <= ATTRACTOR_FORCE_MAX cfg ->
  exists pull : Vec2,
    apply_attractors cfg self attractors = Ok (accelerate self pull)
    /\ Vector2.length pull
       <= INR (length attractors) * ATTRACTOR_FORCE_MAX cfg.
Proof.
  intros Hf Hm Hmax. revert self.
  induction attractors as [| attractor rest IH]; intros self.
  - exists Vector2.zero. rewrite accelerate_zero, length_zero.
    split; [reflexivity | simpl; lra].
  - destruct (attractor_step_bounded cfg self attractor Hf Hm Hmax)
      as (p & Hstep & Hp).
    destruct (IH (accelerate self p)) as (q & Hrest & Hq).
    exists (Vector2.add p q). cbn [apply_attractors].
    rewrite Hstep. cbn [bind]. rewrite Hrest, accelerate_twice.
    split; [reflexivity |].
    eapply Rle_trans; [apply length_add_le |].
    change (length (attractor :: rest)) with (S (length rest)).
    rewrite S_INR. lra.
Qed.

(** Three attractors of the main8 world, one of them at the agent's
    position. *)
Lemma apply_attractors_bounded_witness :
  exists pull : Vec2,
    apply_attractors main8 (new_boid (Vector2.mk 100 100) (Vector2.mk 1 0))
      [Vector2.mk 300 200; Vector2.mk 100 100; Vector2.mk 90 100]
    = Ok (accelerate (new_boid (Vector2.mk 100 100) (Vector2.mk 1 0)) pull)
    /\ Vector2.length pull <= 3 * 20.
Proof.
  destruct (apply_attractors_bounded main8
              [Vector2.mk 300 200; Vector2.mk 100 100; Vector2.mk 90 100]
              (new_boid (Vector2.mk 100 100) (Vector2.mk 1 0)))
    as (pull & Hrun & Hle); [simpl; lra .. |].
  exists pull. split; [exact Hrun |].
  eapply Rle_trans; [exact Hle |]. simpl. lra.
Defined.

(** X5.  For positive ATTRACTOR_FORCE, cap and mass equivalent, an
    attractor away from the subject pulls: the vector it adds to the
    acceleration has a positive dot product with the direction from the
    subject to the attractor. *)
Theorem attractor_pulls_toward (cfg : Config) (self : Boid) (attractor : Vec2) :
  0 < ATTRACTOR_FORCE cfg ->
  0 < MASS_EQUIVALENT cfg ->
  0 < ATTRACTOR_FORCE_MAX cfg ->
  attractor <> position self ->
  exists pull : Vec2,
    attractor_step cfg self attractor = Ok (accelerate self pull)
    /\ 0 < Vector2.dot pull (Vector2.sub attractor (position self)).
Proof.
  intros Hf Hm Hmax Hapart.
  set (direction := Vector2.sub attractor (position self)).
  pose proof (length_nonneg direction) as Hlen.
  assert (Hnz : Vector2.length direction <> 0).
  { intros Hz. apply Hapart. now apply length_sub_zero_inv. }
  eexists. split; [apply attractor_step_apart; [exact Hnz | lra] |].
  fold direction.
  set (k := Rmin _ _).
  assert (Hk : 0 < k).
  { subst k. apply Rmin_glb_lt; [| exact Hmax].
    apply Rmult_lt_0_compat; [| now apply Rinv_0_lt_compat].
    apply Rmult_lt_0_compat; [exact Hf |]. apply powerRZ_pos. lra. }
  pose proof (length_sqr direction) as Hs.
  unfold Vector2.dot, Vector2.mul, unit_of. cbn [Vector2.x Vector2.y].
  replace (Vector2.x direction / Vector2.length direction * k
             * Vector2.x direction
           + Vector2.y direction / Vector2.length direction * k
             * Vector2.y direction)
    with (k * Vector2.length direction).
  - apply Rmult_lt_0_compat; lra.
  - transitivity (k * (Vector2.length direction * Vector2.length direction)
                  / Vector2.length direction);
      [field; exact Hnz | rewrite Hs; field; exact Hnz].
Qed.

(** An attractor of the main8 world 200 to the right of an agent. *)
Lemma attractor_pulls_toward_witness :
  exists pull : Vec2,
    attractor_step main8 (new_boid (Vector2.mk 100 100) (Vector2.mk 1 0))
                   (Vector2.mk 300 100)
    = Ok (accelerate (new_boid (Vector2.mk 100 100) (Vector2.mk 1 0)) pull)
    /\ 0 < Vector2.dot pull
             (Vector2.sub (Vector2.mk 300 100) (Vector2.mk 100 100)).
Proof.
  apply (attractor_pulls_toward main8
           (new_boid (Vector2.mk 100 100) (Vector2.mk 1 0))
           (Vector2.mk 300 100)); try (simpl; lra).
  cbn [position new_boid]. intros [= H]. lra.
Defined.

(** ** The display colour *)

Lemma int_nonneg (a : R) : 0 <= a -> (0 <= int a)%Z.
Proof.
  intros Ha. unfold int. destruct (Rle_dec 0 a); [| contradiction].
  destruct (base_Int_part a) as [_ Hgt].
  assert (H : (-1 < Int_part a)%Z) by (apply lt_IZR; simpl; lra). lia.
Qed.

Lemma clamp_color_byte (c : Z) : (0 <= clamp_color c <= 255)%Z.
Proof. unfold clamp_color. lia. Qed.

Lemma proximity_loop_ge (cfg : Config) (self : Boid) (i : nat)
  (boids : list Boid) :
  forall (j : nat) (p : R), p <= proximity_loop cfg self i j boids p.
Proof.
  induction boids as [| boid rest IH]; intros j p; cbn [proximity_loop];
    [lra |].
  eapply Rle_trans; [| apply IH]. unfold proximity_step, flt.
  destruct (Nat.eqb j i); [lra |].
  destruct (Rlt_dec _ (PERCEPTION_RADIUS cfg)); lra.
Qed.

Lemma proximity_loop_far (cfg : Config) (self : Boid) (i : nat)
  (boids : list Boid) :
  forall (j : nat) (p : R),
    (forall k boid, boids !! k = Some boid -> (j + k)%nat <> i ->
       PERCEPTION_RADIUS cfg
       <= Vector2.distance_to (position self) (position boid)) ->
    proximity_loop cfg self i j boids p = p.
Proof.
  induction boids as [| boid rest IH]; intros j p Hfar; [reflexivity |].
  cbn [proximity_loop]. rewrite IH.
  - unfold proximity_step. destruct (Nat.eqb_spec j i); [reflexivity |].
    rewrite flt_false; [reflexivity |].
    apply (Hfar 0%nat boid); [reflexivity | lia].
  - intros k b Hk Hne. apply (Hfar (S k) b); [exact Hk | lia].
Qed.

(** X6.  For positive PERCEPTION_RADIUS, PROXIMITY_NORMALIZATION and
    MAX_SPEED and base channels of at most 255, [update_color] returns and
    changes nothing but the colour.  Every channel of the new colour is a
    byte; the green channel is the clamped base green, and the red and blue
    channels are at least the clamped base red and blue. *)
Theorem update_color_channels (cfg : Config) (boids : list Boid) (i : nat)
  (self : Boid) :
  0 < PERCEPTION_RADIUS cfg ->
  0 < PROXIMITY_NORMALIZATION cfg ->
  0 < MAX_SPEED cfg ->
  (fst (fst (BASE_COLOR cfg)) <= 255)%Z ->
  (snd (BASE_COLOR cfg) <= 255)%Z ->
  exists r b : Z,
    update_color cfg boids i self
    = Ok (set_color self (r, clamp_color (snd (fst (BASE_COLOR cfg))), b))
    /\ (clamp_color (fst (fst (BASE_COLOR cfg))) <= r <= 255)%Z
    /\ (clamp_color (snd (BASE_COLOR cfg)) <= b <= 255)%Z
    /\ (0 <= r)%Z /\ (0 <= b)%Z.
Proof.
  intros Hp Hn Hm Hr Hb. unfold update_color.
  do 4 (rewrite fdiv_ok by (unfold ACCELERATION_UPPER_EXPECTED; lra);
        cbn [bind]).
  destruct (BASE_COLOR cfg) as [[r0 g0] b0]. cbn [fst snd] in *.
  eexists. eexists. split; [reflexivity |].
  pose proof (proximity_loop_ge cfg self i boids 0 0) as Hprox.
  pose proof (length_nonneg (acceleration self)) as Hlen.
  set (prox := proximity_loop cfg self i 0 boids 0) in *.
  set (len := Vector2.length (acceleration self)) in *.
  assert (Hpf : 0 <= prox / PERCEPTION_RADIUS cfg / PROXIMITY_NORMALIZATION cfg).
  { apply Rmult_le_pos; [| left; now apply Rinv_0_lt_compat].
    apply Rmult_le_pos; [exact Hprox | left; now apply Rinv_0_lt_compat]. }
  assert (Haf : 0 <= (len / ACCELERATION_UPPER_EXPECTED cfg / MAX_SPEED cfg * 3)
                     ^ 3).
  { apply pow_le. apply Rmult_le_pos; [| lra].
    apply Rmult_le_pos; [| left; now apply Rinv_0_lt_compat].
    apply Rmult_le_pos; [exact Hlen |]. left. apply Rinv_0_lt_compat.
    unfold ACCELERATION_UPPER_EXPECTED. lra. }
  assert (Hred : (0 <= int (IZR (255 - r0)
                            * (len / ACCELERATION_UPPER_EXPECTED cfg
                               / MAX_SPEED cfg * 3) ^ 3))%Z).
  { apply int_nonneg. apply Rmult_le_pos; [| exact Haf].
    apply IZR_le. lia. }
  assert (Hblue : (0 <= int (IZR (255 - b0)
                             * (prox / PERCEPTION_RADIUS cfg
                                / PROXIMITY_NORMALIZATION cfg)))%Z).
  { apply int_nonneg. apply Rmult_le_pos; [| exact Hpf].
    apply IZR_le. lia. }
  unfold get_color, clamp_color. lia.
Qed.

(** An agent of the main8 world with a neighbour 10 away. *)
Lemma update_color_channels_witness :
  exists r b : Z,
    update_color main8
      [new_boid (Vector2.mk 100 100) (Vector2.mk 1 0);
       new_boid (Vector2.mk 110 100) (Vector2.mk 0 1)]
      0 (new_boid (Vector2.mk 100 100) (Vector2.mk 1 0))
    = Ok (set_color (new_boid (Vector2.mk 100 100) (Vector2.mk 1 0))
                    (r, 50%Z, b))
    /\ (50 <= r <= 255)%Z /\ (50 <= b <= 255)%Z.
Proof.
  destruct (update_color_channels main8
              [new_boid (Vector2.mk 100 100) (Vector2.mk 1 0);
               new_boid (Vector2.mk 110 100) (Vector2.mk 0 1)]
              0 (new_boid (Vector2.mk 100 100) (Vector2.mk 1 0)))
    as (r & b & Hrun & Hr & Hb & _); try (simpl; lra); try (simpl; lia).
  exists r, b. split; [exact Hrun |]. split; [exact Hr | exact Hb].
Defined.

(** X7.  An agent that perceives nobody and has a zero acceleration is
    given the clamped BASE_COLOR (for non-zero PERCEPTION_RADIUS,
    PROXIMITY_NORMALIZATION and MAX_SPEED). *)
Theorem update_color_isolated (cfg : Config) (boids : list Boid) (i : nat)
  (self : Boid) :
  PERCEPTION_RADIUS cfg <> 0 ->
  PROXIMITY_NORMALIZATION cfg <> 0 ->
  MAX_SPEED cfg <> 0 ->
  acceleration self = Vector2.zero ->
  (forall j boid, boids !! j = Some boid -> j <> i ->
     PERCEPTION_RADIUS cfg
     <= Vector2.distance_to (position self) (position boid)) ->
  update_color cfg boids i self
  = Ok (set_color self
          (clamp_colors (fst (fst (BASE_COLOR cfg)))
                        (snd (fst (BASE_COLOR cfg)))
                        (snd (BASE_COLOR cfg)))).
Proof.
  intros Hp Hn Hm Hacc Hfar. unfold update_color.
  rewrite proximity_loop_far by (intros k b Hk Hne; now apply (Hfar k b)).
  rewrite Hacc, length_zero.
  do 4 (rewrite fdiv_ok by (unfold ACCELERATION_UPPER_EXPECTED; lra);
        cbn [bind]).
  destruct (BASE_COLOR cfg) as [[r0 g0] b0]. cbn [fst snd].
  unfold get_color.
  replace (IZR (255 - r0)
           * (0 / ACCELERATION_UPPER_EXPECTED cfg / MAX_SPEED cfg * 3) ^ 3)
    with 0 by (unfold Rdiv; simpl; ring).
  replace (IZR (255 - b0)
           * (0 / PERCEPTION_RADIUS cfg / PROXIMITY_NORMALIZATION cfg))
    with 0 by (unfold Rdiv; ring).
  rewrite int_zero, !Z.add_0_r. reflexivity.
Qed.

(** A lone agent of the main8 world that has not been pushed. *)
Lemma update_color_isolated_witness :
  update_color main8 [new_boid (Vector2.mk 100 100) (Vector2.mk 1 0)] 0
    (new_boid (Vector2.mk 100 100) (Vector2.mk 1 0))
  = Ok (set_color (new_boid (Vector2.mk 100 100) (Vector2.mk 1 0))
                  (50, 50, 50)%Z).
Proof.
  apply (update_color_isolated main8
           [new_boid (Vector2.mk 100 100) (Vector2.mk 1 0)] 0
           (new_boid (Vector2.mk 100 100) (Vector2.mk 1 0)));
    try (simpl; lra); [reflexivity |].
  intros [| j] boid Hj Hne; [now contradiction Hne | now destruct j].
Defined.

(** ** What an update keeps *)

Lemma apply_rules_frame (cfg : Config) (boids : list Boid) (i : nat)
  (self pushed : Boid) :
  apply_rules cfg boids i self = Ok pushed ->
  exists a : Vec2, pushed = set_acceleration self a.
Proof.
  unfold apply_rules.
  destruct (rules_loop cfg self i 0 boids no_flock) as [acc | e];
    [| discriminate]. cbn [bind].
  destruct (Nat.ltb 0 (total acc)).
  - destruct (Vector2.div (alignment acc) (INR (total acc)));
      [| discriminate]. cbn [bind].
    destruct (Vector2.div (cohesion acc) (INR (total acc)));
      [| discriminate]. cbn [bind].
    destruct (Vector2.normalize _); [| discriminate]. cbn [bind].
    intros [= <-]. eexists. reflexivity.
  - intros [= <-]. exists (acceleration self). now destruct self.
Qed.

Lemma apply_attractors_frame (cfg : Config) (attractors : list Vec2) :
  forall self pushed : Boid,
    apply_attractors cfg self attractors = Ok pushed ->
    exists a : Vec2, pushed = set_acceleration self a.
Proof.
  induction attractors as [| attractor rest IH]; intros self pushed.
  - intros [= <-]. exists (acceleration self). now destruct self.
  - cbn [apply_attractors]. unfold attractor_step.
    destruct (fne _ 0).
    + destruct (fdiv _ _); [| discriminate]. cbn [bind].
      destruct (Vector2.normalize _); [| discriminate]. cbn [bind].
      intros Hrest. destruct (IH _ _ Hrest) as [acc ->]. eexists. reflexivity.
    + cbn [bind]. apply IH.
Qed.

Lemma forces_frame (cfg : Config) (pnoise1 : R -> R) (boids : list Boid)
  (attractors : list Vec2) (i : nat) (self pushed : Boid) :
  forces cfg pnoise1 boids attractors i self = Ok pushed ->
  exists a : Vec2,
    pushed = set_noise_offsets (set_acceleration self a)
               (noise_offset_x self + 0.01) (noise_offset_y self + 0.01).
Proof.
  unfold forces.
  destruct (apply_rules cfg boids i (set_acceleration self Vector2.zero))
    as [s1 | e] eqn:Hrules; [| discriminate]. cbn [bind].
  destruct (apply_rules_frame _ _ _ _ _ Hrules) as [a1 ->].
  intros Hatt. destruct (apply_attractors_frame _ _ _ _ Hatt) as [a2 ->].
  eexists. reflexivity.
Qed.

Lemma update_boid_same_agent (cfg : Config) (pnoise1 : R -> R)
  (boids : list Boid) (attractors : list Vec2) (i : nat) (self self' : Boid) :
  update_boid cfg pnoise1 boids attractors i self = Ok self' ->
  same_agent self self'.
Proof.
  unfold update_boid.
  destruct (forces cfg pnoise1 boids attractors i self) as [pushed | e]
    eqn:Hforces; [| discriminate]. cbn [bind].
  destruct (forces_frame _ _ _ _ _ _ _ Hforces) as [acc ->].
  unfold move.
  destruct (Vector2.div _ _); [| discriminate]. cbn [bind].
  destruct (regulate_speed cfg _); [| discriminate]. cbn [bind].
  unfold update_color.
  repeat match goal with
         | |- context [fdiv ?a ?b] =>
             destruct (fdiv a b); [| discriminate]; cbn [bind]
         end.
  destruct (BASE_COLOR cfg) as [[r g] b].
  intros [= <-]. unfold same_agent. cbn. repeat split.
Qed.

Lemma in_order_loop_same_agents (cfg : Config) (pnoise1 : R -> R)
  (attractors : list Vec2) (todo : list Boid) :
  forall done boids' : list Boid,
    in_order_loop cfg pnoise1 attractors done todo = Ok boids' ->
    exists todo' : list Boid,
      boids' = done ++ todo' /\ Forall2 same_agent todo todo'.
Proof.
  induction todo as [| self rest IH]; intros done boids'.
  - intros [= <-]. exists []. rewrite app_nil_r. split; [reflexivity |].
    constructor.
  - cbn [in_order_loop].
    destruct (update_boid cfg pnoise1 (done ++ self :: rest) attractors
                (length done) self) as [self' | e] eqn:Hup; [| discriminate].
    cbn [bind]. intros Hrest.
    destruct (IH _ _ Hrest) as (rest' & -> & Hsame).
    exists (self' :: rest'). rewrite <- app_assoc. split; [reflexivity |].
    constructor; [| exact Hsame].
    now apply (update_boid_same_agent _ _ _ _ _ _ _ Hup).
Qed.

Lemma tick_same_length (cfg : Config) (pnoise1 : R -> R)
  (boids boids' : list Boid) (attractors : list Vec2) :
  tick cfg pnoise1 boids attractors = Ok boids' ->
  length boids' = length boids /\ Forall2 same_agent boids boids'.
Proof.
  intros Htick. unfold tick in Htick.
  change (seq 0 (length boids)) with (seq (length (@nil Boid)) (length boids))
    in Htick.
  change boids with ([] ++ boids) in Htick at 2.
  rewrite sweep_in_order in Htick.
  destruct (in_order_loop_same_agents _ _ _ _ _ _ Htick) as (todo' & -> & Hsame).
  split; [| exact Hsame]. cbn [app].
  apply eq_sym. now apply (Forall2_length same_agent).
Qed.

(** X8.  A tick that returns keeps the population: as many agents as
    before, in the same order, each with the cohesion, alignment and
    separation weights it had and with both noise offsets advanced by
    0.01. *)
Theorem tick_keeps_population (cfg : Config) (pnoise1 : R -> R)
  (boids boids' : list Boid) (attractors : list Vec2) :
  tick cfg pnoise1 boids attractors = Ok boids' ->
  length boids' = length boids /\ Forall2 same_agent boids boids'.
Proof. apply tick_same_length. Qed.

(** The agent [rear] alone in the main8 world, under the noise function
    that is zero everywhere. *)
Lemma tick_keeps_population_witness :
  exists boids' : list Boid,
    tick main8 (fun _ => 0) [rear] [] = Ok boids'
    /\ length boids' = 1%nat
    /\ Forall2 same_agent [rear] boids'.
Proof.
  destruct (cruise_update (fun _ => 0) [rear] 0 100) as (rear' & Hup & _);
    [reflexivity | lra | |].
  { intros [| j] boid Hj Hne; [now contradiction Hne | now destruct j]. }
  assert (Htick : tick main8 (fun _ => 0) [rear] [] = Ok [rear'])
    by now apply tick_single.
  exists [rear']. split; [exact Htick |].
  exact (tick_keeps_population main8 (fun _ => 0) [rear] [rear'] [] Htick).
Defined.

(** ** The speed an update leaves *)

Lemma cruise_inertia (pnoise1 : R -> R) (px : R) :
  pnoise1 0 = 0 ->
  30 <= px <= 1470 ->
  inertia main8
    (add_noise main8 pnoise1
       (avoid_edges main8
          (set_acceleration (new_boid (Vector2.mk px 100) (Vector2.mk 2.25 0))
                            Vector2.zero)))
  = Vector2.mk 2.25 0.
Proof.
  intros Hnoise Hpx. unfold inertia, add_noise, avoid_edges.
  rewrite edge_force_inside by (unfold BOUNDARY_PERCEPTION; simpl; lra).
  cbn [acceleration velocity position accelerate set_acceleration
       set_noise_offsets noise_offset_x noise_offset_y new_boid].
  rewrite Hnoise. unfold Vector2.add, Vector2.mul, Vector2.zero.
  cbn [Vector2.x Vector2.y]. simpl. f_equal; lra.
Qed.

(** X9.  For positive MAX_SPEED, a START_SPEED in (0, MAX_SPEED], an
    adjustment factor in (0, 1] and non-zero mass equivalent,
    PERCEPTION_RADIUS and PROXIMITY_NORMALIZATION: once the forces have
    returned, an agent whose speed after the inertia update is not zero is
    updated without fault and keeps moving, at a speed of at least
    0.95 * SPEED_ADJUSTMENT_FACTOR * START_SPEED; and when that speed was at
    most MAX_SPEED, so that the cap did not fire, the speed after the update
    is at most 0.95 * MAX_SPEED. *)
Theorem update_boid_speed_bounds (cfg : Config) (pnoise1 : R -> R)
  (boids : list Boid) (attractors : list Vec2) (i : nat) (self pushed : Boid) :
  forces cfg pnoise1 boids attractors i self = Ok pushed ->
  0 < MAX_SPEED cfg ->
  0 < START_SPEED cfg <= MAX_SPEED cfg ->
  0 < SPEED_ADJUSTMENT_FACTOR cfg <= 1 ->
  MASS_EQUIVALENT cfg <> 0 ->
  PERCEPTION_RADIUS cfg <> 0 ->
  PROXIMITY_NORMALIZATION cfg <> 0 ->
  let speed := Vector2.length (inertia cfg pushed) in
  speed <> 0 ->
  exists self' : Boid,
    update_boid cfg pnoise1 boids attractors i self = Ok self'
    /\ 0 < 0.95 * (SPEED_ADJUSTMENT_FACTOR cfg * START_SPEED cfg)
         <= Vector2.length (velocity self')
    /\ (speed <= MAX_SPEED cfg ->
        Vector2.length (velocity self') <= 0.95 * MAX_SPEED cfg).
Proof.
  intros Hforces Hmax Hstart Hfactor Hmass Hp Hn speed Hv.
  destruct (update_boid_speed cfg pnoise1 boids attractors i self pushed)
    as (self' & Hup & Hlen); try assumption; try lra.
  exists self'. split; [exact Hup |]. rewrite Hlen. unfold relaxed.
  fold speed. pose proof (length_nonneg (inertia cfg pushed)) as Hpos.
  fold speed in Hpos.
  split; [split; nra | intros Hcap; nra].
Qed.

(** The agent [rear] alone in the main8 world under a noise function that
    vanishes at 0: it keeps the speed 0.95 * 2.25. *)
Lemma update_boid_speed_bounds_witness :
  exists self' : Boid,
    update_boid main8 (fun _ => 0) [rear] [] 0 rear = Ok self'
    /\ 0.95 * (0.3 * 2.25) <= Vector2.length (velocity self') <= 0.95 * 5.
Proof.
  assert (Hforces : forces main8 (fun _ => 0) [rear] [] 0 rear
                    = Ok (add_noise main8 (fun _ => 0)
                            (avoid_edges main8
                               (set_acceleration rear Vector2.zero)))).
  { apply forces_far_no_attractors.
    intros [| j] boid Hj Hne; [now contradiction Hne | now destruct j]. }
  assert (Hin : inertia main8
                  (add_noise main8 (fun _ => 0)
                     (avoid_edges main8 (set_acceleration rear Vector2.zero)))
                = Vector2.mk 2.25 0)
    by (apply (cruise_inertia (fun _ => 0) 100); [reflexivity | lra]).
  assert (Hlen : Vector2.length (Vector2.mk 2.25 0) = 2.25).
  { rewrite length_horizontal. apply Rabs_pos_eq. lra. }
  destruct (update_boid_speed_bounds main8 (fun _ => 0) [rear] [] 0 rear _
              Hforces) as (self' & Hup & Hlow & Hhigh);
    try (simpl; lra).
  { rewrite Hin, Hlen. lra. }
  exists self'. split; [exact Hup |]. split.
  - simpl in Hlow. lra.
  - rewrite Hin, Hlen in Hhigh. simpl in Hhigh. lra.
Defined.

(** ** The sampled field *)

Lemma length_linspace (start stop : R) (num : nat) :
  length (linspace start stop num) = num.
Proof. unfold linspace. now rewrite length_map, length_seq. Qed.

(** X10.  The grid of [compute_background_surface] has [int(SCREEN_HEIGHT *
    BG_SCALE)] rows of [int(SCREEN_WIDTH * BG_SCALE)] cells each, whatever
    the attractors; for main8 that is 250 rows of 375 cells. *)
Theorem background_shape (cfg : Config) (attractors : list Vec2) :
  let grid := compute_background_surface cfg attractors in
  length grid = Z.to_nat (int (SCREEN_HEIGHT cfg * BG_SCALE cfg))
  /\ Forall (fun row : list Z =>
               length row = Z.to_nat (int (SCREEN_WIDTH cfg * BG_SCALE cfg)))
            grid
  /\ (cfg = main8 ->
      length grid = 250%nat
      /\ Forall (fun row : list Z => length row = 375%nat) grid).
Proof.
  intros grid.
  assert (Hrows : length grid
                  = Z.to_nat (int (SCREEN_HEIGHT cfg * BG_SCALE cfg))).
  { unfold grid, compute_background_surface.
    now rewrite length_map, length_linspace. }
  assert (Hcols : Forall (fun row : list Z =>
                            length row
                            = Z.to_nat (int (SCREEN_WIDTH cfg * BG_SCALE cfg)))
                         grid).
  { unfold grid, compute_background_surface. apply Forall_forall.
    intros row Hrow. apply list_elem_of_In in Hrow.
    apply in_map_iff in Hrow as (gy & <- & _).
    now rewrite length_map, length_linspace. }
  split; [exact Hrows |]. split; [exact Hcols |].
  intros ->. cbn [SCREEN_WIDTH SCREEN_HEIGHT BG_SCALE main8] in Hrows, Hcols.
  replace (1500 * 0.25) with (IZR 375) in Hcols by lra.
  replace (1000 * 0.25) with (IZR 250) in Hrows by lra.
  rewrite int_IZR in Hrows, Hcols by lia.
  split; [exact Hrows | exact Hcols].
Qed.

Lemma sample_step_bounded (cfg : Config) (gx gy : R) (net : R * R)
  (attractor : Vec2) :
  0 <= ATTRACTOR_FORCE cfg ->
  0 <= ATTRACTOR_FORCE_MAX cfg ->
  exists pull : Vec2,
    sample_step cfg gx gy net attractor
    = (fst net + Vector2.x pull, snd net + Vector2.y pull)
    /\ Vector2.length pull <= ATTRACTOR_FORCE_MAX cfg.
Proof.
  intros Hf Hmax. unfold sample_step.
  set (dx := Vector2.x attractor - gx). set (dy := Vector2.y attractor - gy).
  set (dist := Rmax (sqrt (dx ^ 2 + dy ^ 2)) 1e-5).
  set (force := Rmin (ATTRACTOR_FORCE cfg
                      * powerRZ dist (ATTRACTOR_FORCE_DISTANCE_EXP cfg))
                     (ATTRACTOR_FORCE_MAX cfg)).
  exists (Vector2.mul (Vector2.mk dx dy) (force / dist)).
  assert (Hdist : 0 < dist).
  { unfold dist. eapply Rlt_le_trans; [| apply Rmax_r]. lra. }
  assert (Htrue : Vector2.length (Vector2.mk dx dy) <= dist).
  { unfold dist, Vector2.length. cbn [Vector2.x Vector2.y].
    replace (dx * dx + dy * dy) with (dx ^ 2 + dy ^ 2) by ring.
    apply Rmax_l. }
  assert (Hforce : 0 <= force <= ATTRACTOR_FORCE_MAX cfg).
  { unfold force. split; [| apply Rmin_r]. apply Rmin_glb; [| exact Hmax].
    apply Rmult_le_pos; [exact Hf |]. left. now apply powerRZ_pos. }
  split.
  - unfold Vector2.mul. cbn [Vector2.x Vector2.y]. f_equal; field; lra.
  - rewrite length_mul.
    pose proof (length_nonneg (Vector2.mk dx dy)) as Hlen.
    assert (Hq : 0 <= force / dist)
      by (apply Rmult_le_pos; [lra | left; now apply Rinv_0_lt_compat]).
    rewrite Rabs_pos_eq by exact Hq.
    apply Rle_trans with (dist * (force / dist)).
    + apply Rmult_le_compat_r; assumption.
    + replace (dist * (force / dist)) with force by (field; lra). lra.
Qed.

Lemma sample_fold_bounded (cfg : Config) (gx gy : R) (attractors : list Vec2) :
  0 <= ATTRACTOR_FORCE cfg ->
  0 <= ATTRACTOR_FORCE_MAX cfg ->
  forall net : Vec2,
    exists pull : Vec2,
      fold_left (sample_step cfg gx gy) attractors
                (Vector2.x net, Vector2.y net)
      = (Vector2.x (Vector2.add net pull), Vector2.y (Vector2.add net pull))
      /\ Vector2.length pull
         <= INR (length attractors) * ATTRACTOR_FORCE_MAX cfg.
Proof.
  intros Hf Hmax. induction attractors as [| attractor rest IH]; intros net.
  - exists Vector2.zero. rewrite add_zero_r, length_zero.
    split; [reflexivity | simpl; lra].
  - cbn [fold_left].
    destruct (sample_step_bounded cfg gx gy (Vector2.x net, Vector2.y net)
                attractor Hf Hmax) as (p & -> & Hp).
    cbn [fst snd].
    destruct (IH (Vector2.add net p)) as (q & Hrest & Hq).
    exists (Vector2.add p q). split.
    + cbn [Vector2.add Vector2.x Vector2.y] in Hrest |- *. rewrite Hrest.
      f_equal; lra.
    + eapply Rle_trans; [apply length_add_le |].
      change (length (attractor :: rest)) with (S (length rest)).
      rewrite S_INR. lra.
Qed.

(** X11.  For a non-negative ATTRACTOR_FORCE and cap, the net force the
    sampler accumulates at a grid point is no larger than the number of
    attractors times ATTRACTOR_FORCE_MAX, wherever the attractors are: the
    floor of 1e-5 on the distance keeps every division defined. *)
Theorem sampled_force_bounded (cfg : Config) (attractors : list Vec2)
  (gx gy : R) :
  0 <= ATTRACTOR_FORCE cfg ->
  0 <= ATTRACTOR_FORCE_MAX cfg ->
  let net := fold_left (sample_step cfg gx gy) attractors (0, 0) in
  sqrt (fst net ^ 2 + snd net ^ 2)
  <= INR (length attractors) * ATTRACTOR_FORCE_MAX cfg.
Proof.
  intros Hf Hmax net.
  destruct (sample_fold_bounded cfg gx gy attractors Hf Hmax Vector2.zero)
    as (pull & Hfold & Hle).
  change (Vector2.x Vector2.zero, Vector2.y Vector2.zero) with (0, 0) in Hfold.
  subst net. rewrite Hfold. cbn [fst snd]. rewrite add_zero_l.
  replace (Vector2.x pull ^ 2 + Vector2.y pull ^ 2)
    with (Vector2.x pull * Vector2.x pull + Vector2.y pull * Vector2.y pull)
    by ring.
  exact Hle.
Qed.

(** Two attractors of the main8 world, sampled at one of them. *)
Lemma sampled_force_bounded_witness :
  let net := fold_left (sample_step main8 300 200)
               [Vector2.mk 300 200; Vector2.mk 310 200] (0, 0) in
  sqrt (fst net ^ 2 + snd net ^ 2) <= 2 * 20.
Proof.
  intros net.
  eapply Rle_trans;
    [apply (sampled_force_bounded main8
              [Vector2.mk 300 200; Vector2.mk 310 200] 300 200);
     simpl; lra |].
  simpl. lra.
Defined.

(** X12.  The grid point exactly at an attractor feels nothing from it: the
    distance is floored at 1e-5 but the direction is the zero vector.  With
    that attractor alone the cell is 0, the darkest value, although the
    force is at its cap all around. *)
Theorem sample_at_attractor (cfg : Config) (attractor : Vec2) (net : R * R) :
  sample_step cfg (Vector2.x attractor) (Vector2.y attractor) net attractor
  = net
  /\ cell_brightness cfg [attractor] (Vector2.x attractor)
                     (Vector2.y attractor) = 0%Z.
Proof.
  assert (Hstep : forall n : R * R,
             sample_step cfg (Vector2.x attractor) (Vector2.y attractor) n
                         attractor = n).
  { intros [nx ny]. unfold sample_step. cbn [fst snd].
    replace (Vector2.x attractor - Vector2.x attractor) with 0 by lra.
    replace (Vector2.y attractor - Vector2.y attractor) with 0 by lra.
    f_equal; unfold Rdiv; ring. }
  split; [apply Hstep |].
  unfold cell_brightness. cbn [fold_left]. rewrite Hstep.
  exact (cell_brightness_no_attractors cfg (Vector2.x attractor)
                                       (Vector2.y attractor)).
Qed.

(** ** Start-up *)

Lemma uniform_between (a b : R) (g : Rng) :
  unit_draws g -> a <= b ->
  a <= fst (uniform a b g) <= b
  /\ draws (snd (uniform a b g)) = draws g
  /\ cursor (snd (uniform a b g)) = S (cursor g).
Proof.
  intros Hg Hab. unfold uniform, random. cbn [fst snd draws cursor].
  specialize (Hg (cursor g)). repeat split; nra.
Qed.

Lemma unit_draws_same (g g' : Rng) :
  draws g' = draws g -> unit_draws g -> unit_draws g'.
Proof. intros Hsame Hg n. rewrite Hsame. apply Hg. Qed.

Lemma draw_attractors_inside (cfg : Config) (setup : Setup) (n : nat) :
  2 * ATTRACTOR_INIT_MARGIN setup <= SCREEN_WIDTH cfg ->
  2 * ATTRACTOR_INIT_MARGIN setup <= SCREEN_HEIGHT cfg ->
  forall g : Rng,
    unit_draws g ->
    length (fst (draw_attractors cfg setup n g)) = n
    /\ Forall (inside_margin cfg setup) (fst (draw_attractors cfg setup n g))
    /\ draws (snd (draw_attractors cfg setup n g)) = draws g
    /\ cursor (snd (draw_attractors cfg setup n g)) = (cursor g + 2 * n)%nat.
Proof.
  intros Hw Hh. induction n as [| n IH]; intros g Hg.
  - cbn. repeat split; [constructor | lia].
  - cbn [draw_attractors].
    destruct (uniform_between (ATTRACTOR_INIT_MARGIN setup)
                (SCREEN_WIDTH cfg - ATTRACTOR_INIT_MARGIN setup) g Hg)
      as (Hx & Hdx & Hcx); [lra |].
    destruct (uniform _ _ g) as [ax g1]. cbn [fst snd] in Hx, Hdx, Hcx.
    assert (Hg1 : unit_draws g1) by now apply (unit_draws_same g).
    destruct (uniform_between (ATTRACTOR_INIT_MARGIN setup)
                (SCREEN_HEIGHT cfg - ATTRACTOR_INIT_MARGIN setup) g1 Hg1)
      as (Hy & Hdy & Hcy); [lra |].
    destruct (uniform _ _ g1) as [ay g2]. cbn [fst snd] in Hy, Hdy, Hcy.
    assert (Hg2 : unit_draws g2) by now apply (unit_draws_same g1).
    destruct (IH g2 Hg2) as (Hlen & Hin & Hd & Hc).
    destruct (draw_attractors cfg setup n g2) as [rest g3].
    cbn [fst snd] in *. split; [cbn [length]; now rewrite Hlen |].
    split; [constructor; [split; assumption | exact Hin] |].
    split; [congruence | lia].
Qed.

(** X13.  [initialize_attractors] fails its assertion when ATTRACTOR_INIT
    is off.  When it is on, and the world is at least two margins wide and
    high, it returns ATTRACTOR_INIT_NUM attractors, each at least
    ATTRACTOR_INIT_MARGIN away from every edge, after 2 * ATTRACTOR_INIT_NUM
    draws; and since it seeds the generator first, the attractors do not
    depend on the state the generator was in. *)
Theorem initialize_attractors_seeded (cfg : Config) (setup : Setup)
  (mersenne : Z -> nat -> R) (g : Rng) :
  (forall n : nat, 0 <= mersenne (ATTRACTOR_INIT_SEED setup) n < 1) ->
  2 * ATTRACTOR_INIT_MARGIN setup <= SCREEN_WIDTH cfg ->
  2 * ATTRACTOR_INIT_MARGIN setup <= SCREEN_HEIGHT cfg ->
  (ATTRACTOR_INIT setup = false ->
   initialize_attractors cfg setup mersenne g = AssertionError)
  /\ (ATTRACTOR_INIT setup = true ->
      exists (placed : list Vec2) (g' : Rng),
        initialize_attractors cfg setup mersenne g = Passed (placed, g')
        /\ length placed = ATTRACTOR_INIT_NUM setup
        /\ Forall (inside_margin cfg setup) placed
        /\ cursor g' = (2 * ATTRACTOR_INIT_NUM setup)%nat
        /\ forall g2 : Rng,
             initialize_attractors cfg setup mersenne g2
             = Passed (placed, g')).
Proof.
  intros Hm Hw Hh. unfold initialize_attractors. split; intros ->;
    [reflexivity |].
  destruct (draw_attractors_inside cfg setup (ATTRACTOR_INIT_NUM setup) Hw Hh
              (seed mersenne (ATTRACTOR_INIT_SEED setup)) Hm)
    as (Hlen & Hin & _ & Hc).
  destruct (draw_attractors cfg setup (ATTRACTOR_INIT_NUM setup)
              (seed mersenne (ATTRACTOR_INIT_SEED setup))) as [placed g'].
  cbn [fst snd] in *. exists placed, g'. repeat split; try assumption.
Qed.

(** The main8 world and set-up, with a generator that always returns 0.5. *)
Lemma initialize_attractors_seeded_witness :
  exists (placed : list Vec2) (g' : Rng),
    initialize_attractors main8 main8_setup (fun _ _ => 0.5)
      {| draws := fun _ => 0; cursor := 7 |}
    = Passed (placed, g')
    /\ length placed = 10%nat
    /\ Forall (inside_margin main8 main8_setup) placed.
Proof.
  destruct (initialize_attractors_seeded main8 main8_setup (fun _ _ => 0.5)
              {| draws := fun _ => 0; cursor := 7 |})
    as (_ & Hon); [intros n; lra | simpl; lra | simpl; lra |].
  destruct (Hon eq_refl) as (placed & g' & Hrun & Hlen & Hin & _).
  exists placed, g'. split; [exact Hrun |]. split; [exact Hlen | exact Hin].
Defined.

Lemma length_heading (angle : R) :
  Vector2.length (Vector2.mk (cos angle) (sin angle)) = 1.
Proof.
  unfold Vector2.length. cbn [Vector2.x Vector2.y].
  replace (cos angle * cos angle + sin angle * sin angle) with 1.
  - apply sqrt_1.
  - pose proof (sin2_cos2 angle) as H. unfold Rsqr in H. lra.
Qed.

Lemma Boid_init_newborn (cfg : Config) (setup : Setup) (g : Rng) :
  unit_draws g ->
  0 <= START_SPEED cfg ->
  0 <= SCREEN_WIDTH cfg -> 0 <= SCREEN_HEIGHT cfg ->
  0 <= COHESION_WEIGHT setup -> 0 <= ALIGNMENT_WEIGHT setup ->
  0 <= SEPARATION_WEIGHT setup ->
  newborn cfg setup (fst (Boid_init cfg setup g))
  /\ draws (snd (Boid_init cfg setup g)) = draws g
  /\ cursor (snd (Boid_init cfg setup g)) = (cursor g + 8)%nat.
Proof.
  intros Hg Hs Hw Hh Hc Ha Hsep.
  unfold Boid_init, uniform, random, newborn.
  cbn [fst snd draws cursor position velocity acceleration cohesion_weight
       alignment_weight separation_weight noise_offset_x noise_offset_y
       Vector2.x Vector2.y].
  rewrite length_mul, length_heading, Rabs_pos_eq by exact Hs.
  pose proof (Hg (cursor g)). pose proof (Hg (S (cursor g))).
  pose proof (Hg (S (S (S (cursor g))))).
  pose proof (Hg (S (S (S (S (cursor g)))))).
  pose proof (Hg (S (S (S (S (S (cursor g))))))).
  pose proof (Hg (S (S (S (S (S (S (cursor g)))))))).
  pose proof (Hg (S (S (S (S (S (S (S (cursor g))))))))).
  repeat split; try reflexivity; try nra; lia.
Qed.

(** X14.  The constructor: with draws in [[0,1)], a non-negative
    START_SPEED and world size and non-negative global weights, [Boid()]
    makes an agent that flies at exactly START_SPEED whatever the heading
    drawn, has no acceleration, lies inside the world, has each weight
    within 20% of the global one and noise offsets in [[0,1000)]; it takes
    eight draws. *)
Theorem Boid_init_spec (cfg : Config) (setup : Setup) (g : Rng) :
  unit_draws g ->
  0 <= START_SPEED cfg ->
  0 <= SCREEN_WIDTH cfg -> 0 <= SCREEN_HEIGHT cfg ->
  0 <= COHESION_WEIGHT setup -> 0 <= ALIGNMENT_WEIGHT setup ->
  0 <= SEPARATION_WEIGHT setup ->
  newborn cfg setup (fst (Boid_init cfg setup g))
  /\ cursor (snd (Boid_init cfg setup g)) = (cursor g + 8)%nat.
Proof.
  intros Hg Hs Hw Hh Hc Ha Hsep.
  destruct (Boid_init_newborn cfg setup g Hg Hs Hw Hh Hc Ha Hsep)
    as (Hnew & _ & Hcur).
  split; assumption.
Qed.

(** The first agent of the main8 world drawn from a generator that always
    returns 0.5. *)
Lemma Boid_init_spec_witness :
  newborn main8 main8_setup
    (fst (Boid_init main8 main8_setup {| draws := fun _ => 0.5; cursor := 0 |}))
  /\ cursor (snd (Boid_init main8 main8_setup
                    {| draws := fun _ => 0.5; cursor := 0 |})) = 8%nat.
Proof.
  apply (Boid_init_spec main8 main8_setup
           {| draws := fun _ => 0.5; cursor := 0 |});
    try (simpl; lra).
  intros n. simpl. lra.
Defined.

Lemma spawn_newborn (cfg : Config) (setup : Setup) (n : nat) :
  0 <= START_SPEED cfg ->
  0 <= SCREEN_WIDTH cfg -> 0 <= SCREEN_HEIGHT cfg ->
  0 <= COHESION_WEIGHT setup -> 0 <= ALIGNMENT_WEIGHT setup ->
  0 <= SEPARATION_WEIGHT setup ->
  forall g : Rng,
    unit_draws g ->
    length (fst (spawn cfg setup n g)) = n
    /\ Forall (newborn cfg setup) (fst (spawn cfg setup n g))
    /\ draws (snd (spawn cfg setup n g)) = draws g
    /\ cursor (snd (spawn cfg setup n g)) = (cursor g + 8 * n)%nat.
Proof.
  intros Hs Hw Hh Hc Ha Hsep. induction n as [| n IH]; intros g Hg.
  - cbn. repeat split; [constructor | lia].
  - cbn [spawn].
    destruct (Boid_init_newborn cfg setup g Hg Hs Hw Hh Hc Ha Hsep)
      as (Hnew & Hd & Hcur).
    destruct (Boid_init cfg setup g) as [b g1]. cbn [fst snd] in Hnew, Hd, Hcur.
    assert (Hg1 : unit_draws g1) by now apply (unit_draws_same g).
    destruct (IH g1 Hg1) as (Hlen & Hall & Hd' & Hcur').
    destruct (spawn cfg setup n g1) as [rest g2]. cbn [fst snd] in *.
    split; [cbn [length]; now rewrite Hlen |].
    split; [now constructor |]. split; [congruence | lia].
Qed.

Lemma draw_attractors_count (cfg : Config) (setup : Setup) (n : nat) :
  forall g : Rng,
    length (fst (draw_attractors cfg setup n g)) = n
    /\ draws (snd (draw_attractors cfg setup n g)) = draws g.
Proof.
  induction n as [| n IH]; intros g; [now split |].
  cbn [draw_attractors]. unfold uniform, random. cbn [fst snd].
  match goal with
  | |- context [draw_attractors cfg setup n ?g2] =>
      destruct (IH g2) as (Hl & Hd);
        destruct (draw_attractors cfg setup n g2) as [rest g3]
  end.
  cbn [fst snd length draws] in *. split; [now rewrite Hl | exact Hd].
Qed.

(** X15.  The state [main] enters its loop with.  With draws in [[0,1)]
    (those of the generator and those that follow the seed) and
    non-negative START_SPEED, world size and global weights: start-up never
    trips the assertion of [initialize_attractors], whether ATTRACTOR_INIT
    is on or off; there are NUM_BOIDS agents, each as the constructor
    guarantees; there are ATTRACTOR_INIT_NUM attractors, or none when
    ATTRACTOR_INIT is off; the background is the one of those attractors,
    and the loop starts running with a recomputation pending. *)
Theorem start_world (cfg : Config) (setup : Setup)
  (mersenne : Z -> nat -> R) (g : Rng) :
  unit_draws g ->
  (forall n : nat, 0 <= mersenne (ATTRACTOR_INIT_SEED setup) n < 1) ->
  0 <= START_SPEED cfg ->
  0 <= SCREEN_WIDTH cfg -> 0 <= SCREEN_HEIGHT cfg ->
  0 <= COHESION_WEIGHT setup -> 0 <= ALIGNMENT_WEIGHT setup ->
  0 <= SEPARATION_WEIGHT setup ->
  exists w : Main.World,
    Main.start cfg setup mersenne g = Passed w
    /\ length (Main.boids w) = NUM_BOIDS setup
    /\ Forall (newborn cfg setup) (Main.boids w)
    /\ length (Main.attractors w)
       = (if ATTRACTOR_INIT setup then ATTRACTOR_INIT_NUM setup else 0%nat)
    /\ Main.background_surface w
       = compute_background_surface cfg (Main.attractors w)
    /\ Main.attractors_changed w = true
    /\ Main.running w = true.
Proof.
  intros Hg Hm Hs Hw Hh Hc Ha Hsep. unfold Main.start.
  assert (Hmade : exists (placed : list Vec2) (g1 : Rng),
             (if ATTRACTOR_INIT setup
              then initialize_attractors cfg setup mersenne g
              else Passed ([], g)) = Passed (placed, g1)
             /\ unit_draws g1
             /\ length placed
                = (if ATTRACTOR_INIT setup then ATTRACTOR_INIT_NUM setup
                   else 0%nat)).
  { unfold initialize_attractors. destruct (ATTRACTOR_INIT setup).
    - exists (fst (draw_attractors cfg setup (ATTRACTOR_INIT_NUM setup)
                     (seed mersenne (ATTRACTOR_INIT_SEED setup)))),
             (snd (draw_attractors cfg setup (ATTRACTOR_INIT_NUM setup)
                     (seed mersenne (ATTRACTOR_INIT_SEED setup)))).
      split; [now destruct (draw_attractors _ _ _ _) |].
      destruct (draw_attractors_count cfg setup (ATTRACTOR_INIT_NUM setup)
                  (seed mersenne (ATTRACTOR_INIT_SEED setup)))
        as (Hl & Hd).
      split; [| exact Hl]. intros k. rewrite Hd. apply Hm.
    - exists [], g. split; [reflexivity |]. split; [exact Hg | reflexivity]. }
  destruct Hmade as (placed & g1 & -> & Hg1 & Hplaced).
  destruct (spawn_newborn cfg setup (NUM_BOIDS setup) Hs Hw Hh Hc Ha Hsep g1 Hg1)
    as (Hlen & Hall & _).
  destruct (spawn cfg setup (NUM_BOIDS setup) g1) as [born g2].
  cbn [fst snd] in Hlen, Hall.
  eexists. split; [reflexivity |].
  cbn [Main.boids Main.attractors Main.background_surface
       Main.attractors_changed Main.running].
  repeat split; assumption.
Qed.

(** The main8 world and set-up, with generators that always return 0.5. *)
Lemma start_world_witness :
  exists w : Main.World,
    Main.start main8 main8_setup (fun _ _ => 0.5)
      {| draws := fun _ => 0.5; cursor := 0 |}
    = Passed w
    /\ length (Main.boids w) = 100%nat
    /\ length (Main.attractors w) = 10%nat
    /\ Forall (newborn main8 main8_setup) (Main.boids w).
Proof.
  destruct (start_world main8 main8_setup (fun _ _ => 0.5)
              {| draws := fun _ => 0.5; cursor := 0 |})
    as (w & Hrun & Hlen & Hall & Hatt & _);
    try (simpl; lra); try (intros n; simpl; lra).
  exists w. repeat split; assumption.
Defined.

(** ** The main loop *)

Lemma handle_events (events : list Main.event) :
  forall w : Main.World,
    let w' := fold_left Main.handle events w in
    Main.boids w' = Main.boids w
    /\ Main.attractors w' = Main.attractors w ++ clicks events
    /\ Main.background_surface w' = Main.background_surface w
    /\ (Main.attractors_changed w' = false ->
        Main.attractors_changed w = false /\ clicks events = [])
    /\ (In Main.QUIT events -> Main.running w' = false)
    /\ (Main.running w = false -> Main.running w' = false).
Proof.
  induction events as [| e rest IH]; intros w; cbv zeta.
  - cbn. rewrite app_nil_r. repeat split; tauto.
  - cbn [fold_left]. specialize (IH (Main.handle w e)). cbv zeta in IH.
    destruct IH as (Hb & Ha & Hs & Hc & Hq & Hr).
    rewrite Hb, Ha, Hs.
    destruct e as [| pos |];
      cbn [Main.handle Main.boids Main.attractors Main.background_surface
           Main.attractors_changed Main.running clicks In] in *.
    + repeat split; intuition (try discriminate).
    + rewrite <- app_assoc. repeat split; intuition (try discriminate).
    + repeat split; intuition (try discriminate).
Qed.

Lemma frame_inv (cfg : Config) (pnoise1 : R -> R) (w w' : Main.World)
  (events : list Main.event) :
  Main.frame cfg pnoise1 w events = Ok w' ->
  Main.attractors w' = Main.attractors w ++ clicks events
  /\ tick cfg pnoise1 (Main.boids w) (Main.attractors w') = Ok (Main.boids w')
  /\ Main.attractors_changed w' = false
  /\ (coherent cfg w -> coherent cfg w')
  /\ (In Main.QUIT events -> Main.running w' = false)
  /\ (Main.running w = false -> Main.running w' = false).
Proof.
  unfold Main.frame. cbv zeta.
  pose proof (handle_events events w) as Hh. cbv zeta in Hh.
  destruct Hh as (Hb & Ha & Hs & Hc & Hq & Hr).
  set (w1 := fold_left Main.handle events w) in *.
  assert (Hrefresh :
    Main.boids (Main.refresh cfg w1) = Main.boids w1
    /\ Main.attractors (Main.refresh cfg w1) = Main.attractors w1
    /\ Main.attractors_changed (Main.refresh cfg w1) = false
    /\ Main.running (Main.refresh cfg w1) = Main.running w1
    /\ (coherent cfg w ->
        Main.background_surface (Main.refresh cfg w1)
        = compute_background_surface cfg (Main.attractors w1))).
  { unfold Main.refresh.
    destruct (Main.attractors_changed w1) eqn:Hch;
      cbn [Main.boids Main.attractors Main.background_surface
           Main.attractors_changed Main.running].
    - repeat split.
    - repeat split; [exact Hch |]. intros Hco.
      destruct (Hc eq_refl) as [Hw Hnone].
      rewrite Hs, Ha, Hnone, app_nil_r. now apply Hco. }
  destruct Hrefresh as (Hb2 & Ha2 & Hc2 & Hr2 & Hs2).
  rewrite Hb2, Ha2.
  destruct (tick cfg pnoise1 (Main.boids w1) (Main.attractors w1))
    as [boids' | e] eqn:Htick; [| discriminate]. cbn [bind].
  intros [= <-].
  cbn [Main.boids Main.attractors Main.background_surface
       Main.attractors_changed Main.running].
  rewrite Hr2. rewrite Hb, Ha in Htick.
  split; [exact Ha |]. split; [now rewrite Ha |]. split; [exact Hc2 |].
  split; [| split; assumption].
  intros Hco _.
  cbn [Main.background_surface Main.attractors]. now apply Hs2.
Qed.

(** X16.  A QUIT event does not cut the frame short.  While the loop is
    running, a frame whose queue holds a QUIT is carried out in full, the
    clicks of that queue included and the agents swept against them, and
    the loop then ends: the later queues are never read, and the state it
    ends in has [running] off. *)
Theorem quit_ends_after_the_frame (cfg : Config) (pnoise1 : R -> R)
  (w : Main.World) (events : list Main.event) (later : list (list Main.event)) :
  Main.running w = true ->
  In Main.QUIT events ->
  Main.loop cfg pnoise1 w (events :: later) = Main.frame cfg pnoise1 w events
  /\ forall w' : Main.World,
       Main.frame cfg pnoise1 w events = Ok w' ->
       Main.running w' = false
       /\ Main.attractors w' = Main.attractors w ++ clicks events
       /\ tick cfg pnoise1 (Main.boids w) (Main.attractors w ++ clicks events)
          = Ok (Main.boids w').
Proof.
  intros Hrun Hquit.
  assert (Hframe : forall w' : Main.World,
             Main.frame cfg pnoise1 w events = Ok w' ->
             Main.running w' = false
             /\ Main.attractors w' = Main.attractors w ++ clicks events
             /\ tick cfg pnoise1 (Main.boids w)
                     (Main.attractors w ++ clicks events)
                = Ok (Main.boids w')).
  { intros w' Hw'. destruct (frame_inv _ _ _ _ _ Hw') as (Ha & Ht & _ & _ & Hq & _).
    split; [now apply Hq |]. split; [exact Ha | now rewrite <- Ha]. }
  split; [| exact Hframe].
  cbn [Main.loop]. rewrite Hrun.
  destruct (Main.frame cfg pnoise1 w events) as [w' | e] eqn:Hw';
    [| reflexivity].
  cbn [bind]. destruct (Hframe w' eq_refl) as (Hoff & _).
  destruct later; cbn [Main.loop]; [reflexivity | now rewrite Hoff].
Qed.

(** A world of the main8 configuration without agents: a click and a QUIT
    in the same queue. *)
Lemma quit_ends_after_the_frame_witness :
  let w := {| Main.boids := []; Main.attractors := [Vector2.mk 300 200];
              Main.background_surface := [];
              Main.attractors_changed := true; Main.running := true |} in
  let events := [Main.MOUSEBUTTONDOWN (Vector2.mk 500 400); Main.QUIT] in
  Main.loop main8 (fun _ => 0) w [events; [Main.OTHER]]
  = Main.frame main8 (fun _ => 0) w events.
Proof.
  intros w events.
  apply (quit_ends_after_the_frame main8 (fun _ => 0) w events [[Main.OTHER]]).
  - reflexivity.
  - right. left. reflexivity.
Defined.

(** X17.  Over any number of frames the loop keeps the background in step
    with the attractors and never loses an attractor.  From a state whose
    background is not stale, a loop that returns ends in a state whose
    background is not stale; its attractors are the ones it started with
    followed by the clicks of the frames it carried out, in order; and it
    holds as many agents as at the start. *)
Theorem loop_keeps_background (cfg : Config) (pnoise1 : R -> R)
  (queues : list (list Main.event)) :
  forall w w' : Main.World,
    coherent cfg w ->
    Main.loop cfg pnoise1 w queues = Ok w' ->
    coherent cfg w'
    /\ length (Main.boids w') = length (Main.boids w)
    /\ exists k : nat,
         (k <= length queues)%nat
         /\ Main.attractors w'
            = Main.attractors w ++ concat (map clicks (take k queues)).
Proof.
  induction queues as [| events rest IH]; intros w w' Hco.
  - intros [= <-]. split; [exact Hco |]. split; [reflexivity |].
    exists 0%nat. cbn. rewrite app_nil_r. split; [lia | reflexivity].
  - cbn [Main.loop]. destruct (Main.running w).
    + destruct (Main.frame cfg pnoise1 w events) as [w1 | e] eqn:Hframe;
        [| discriminate]. cbn [bind]. intros Hrest.
      destruct (frame_inv _ _ _ _ _ Hframe) as (Ha & Ht & _ & Hco1 & _).
      destruct (IH w1 w' (Hco1 Hco) Hrest) as (Hco' & Hlen & k & Hk & Hatt).
      split; [exact Hco' |]. split.
      * rewrite Hlen.
        now destruct (tick_same_length _ _ _ _ _ Ht).
      * exists (S k). cbn [length take map concat]. split; [lia |].
        rewrite Hatt, Ha. now rewrite <- app_assoc.
    + intros [= <-]. split; [exact Hco |]. split; [reflexivity |].
      exists 0%nat. cbn. rewrite app_nil_r. split; [lia | reflexivity].
Qed.

(** A world of the main8 configuration without agents and with an
    up-to-date background: a click in the first frame, a QUIT in the second,
    a third queue that is never read. *)
Lemma loop_keeps_background_witness :
  let w := {| Main.boids := []; Main.attractors := [Vector2.mk 300 200];
              Main.background_surface :=
                compute_background_surface main8 [Vector2.mk 300 200];
              Main.attractors_changed := false; Main.running := true |} in
  exists w' : Main.World,
    Main.loop main8 (fun _ => 0) w
      [[Main.MOUSEBUTTONDOWN (Vector2.mk 500 400)]; [Main.QUIT];
       [Main.MOUSEBUTTONDOWN (Vector2.mk 1 1)]]
    = Ok w'
    /\ Main.attractors w' = [Vector2.mk 300 200; Vector2.mk 500 400]
    /\ coherent main8 w'.
Proof.
  intros w.
  assert (Hloop :
    Main.loop main8 (fun _ => 0) w
      [[Main.MOUSEBUTTONDOWN (Vector2.mk 500 400)]; [Main.QUIT];
       [Main.MOUSEBUTTONDOWN (Vector2.mk 1 1)]]
    = Ok {| Main.boids := [];
            Main.attractors := [Vector2.mk 300 200; Vector2.mk 500 400];
            Main.background_surface :=
              compute_background_surface main8
                [Vector2.mk 300 200; Vector2.mk 500 400];
            Main.attractors_changed := false; Main.running := false |}).
  { unfold w.
    cbn [Main.loop Main.frame Main.refresh Main.handle fold_left bind tick
         sweep seq length app Main.boids Main.attractors
         Main.background_surface Main.attractors_changed Main.running].
    reflexivity. }
  eexists. split; [exact Hloop |]. split; [reflexivity |].
  assert (Hco : coherent main8 w) by (intros _; reflexivity).
  exact (proj1 (loop_keeps_background main8 (fun _ => 0) _ w _ Hco Hloop)).
Defined.

(** ** The glyph *)

Lemma length_scaled_heading (angle k : R) :
  0 <= k ->
  Vector2.length (Vector2.mul (Vector2.mk (cos angle) (sin angle)) k) = k.
Proof.
  intros Hk. rewrite length_mul, length_heading, Rabs_pos_eq by exact Hk. lra.
Qed.

Lemma distance_to_add (p v : Vec2) :
  Vector2.distance_to p (Vector2.add p v) = Vector2.length v.
Proof.
  unfold Vector2.distance_to, Vector2.length, Vector2.add.
  cbn [Vector2.x Vector2.y]. f_equal. ring.
Qed.

(** X18.  [draw] paints the agent in its own colour as a triangle of fixed
    size: whatever the velocity (a zero velocity included) and whatever
    angle [atan2] returns, the tip lies 8 away from the agent's position
    and the two rear corners 4 away. *)
Theorem draw_glyph (atan2 : R -> R -> R) (self : Boid) :
  exists tip left right : Vec2,
    draw atan2 self = (color self, [tip; left; right])
    /\ Vector2.distance_to (position self) tip = 8
    /\ Vector2.distance_to (position self) left = 4
    /\ Vector2.distance_to (position self) right = 4.
Proof.
  unfold draw. eexists. eexists. eexists. split; [reflexivity |].
  rewrite !distance_to_add.
  rewrite !length_scaled_heading by lra. repeat split; lra.
Qed.

(** ** main1.py and main3.py *)

Lemma cap_speed (v : Vec2) (cap : R) :
  0 <= cap ->
  forall capped : Vec2,
    (if fgt (Vector2.length v) cap
     then let* unit := Vector2.normalize v in Ok (Vector2.mul unit cap)
     else Ok v) = Ok capped ->
    Vector2.length capped <= cap.
Proof.
  intros Hcap capped. unfold fgt.
  destruct (Rgt_dec (Vector2.length v) cap) as [Hover | Hunder].
  - destruct (Vector2.normalize v) as [unit | e] eqn:Hunit; [| discriminate].
    cbn [bind]. intros [= <-].
    rewrite length_mul, (normalize_unit _ _ Hunit), Rabs_pos_eq by exact Hcap.
    lra.
  - intros [= <-]. lra.
Qed.

(** X19.  main1.py: whenever [apply_rules] returns, the agent's speed is at
    most MAX_SPEED (taken non-negative) and its position is untouched. *)
Theorem main1_apply_rules_caps_speed (cfg : Config)
  (cohesion_weight alignment_weight separation_weight : R)
  (boids : list Boid) (i : nat) (self self' : Boid) :
  0 <= MAX_SPEED cfg ->
  Main1.apply_rules cfg cohesion_weight alignment_weight separation_weight
                    boids i self = Ok self' ->
  Vector2.length (velocity self') <= MAX_SPEED cfg
  /\ position self' = position self.
Proof.
  intros Hmax. unfold Main1.apply_rules.
  destruct (rules_loop cfg self i 0 boids no_flock) as [acc | e];
    [| discriminate]. cbn [bind].
  match goal with
  | |- context [bind ?c _] => destruct c as [pushed | e] eqn:Hpushed
  end; [| discriminate]. cbn [bind].
  assert (Hpos : position pushed = position self).
  { destruct (Nat.ltb 0 (total acc)).
    - destruct (Vector2.div (alignment acc) _); [| discriminate].
      cbn [bind] in Hpushed.
      destruct (Vector2.div (cohesion acc) _); [| discriminate].
      cbn [bind] in Hpushed.
      destruct (Vector2.normalize _); [| discriminate].
      cbn [bind] in Hpushed. now injection Hpushed as <-.
    - now injection Hpushed as <-. }
  intros Hcapped.
  assert (Hv : (if fgt (Vector2.length (velocity pushed)) (MAX_SPEED cfg)
                then let* unit := Vector2.normalize (velocity pushed) in
                     Ok (Vector2.mul unit (MAX_SPEED cfg))
                else Ok (velocity pushed)) = Ok (velocity self')
               /\ position self' = position pushed).
  { destruct (fgt _ _).
    - destruct (Vector2.normalize (velocity pushed)); [| discriminate].
      cbn [bind] in *. now injection Hcapped as <-.
    - now injection Hcapped as <-. }
  destruct Hv as [Hv Hp]. split; [| congruence].
  exact (cap_speed _ _ Hmax _ Hv).
Qed.

(** A lone agent flying at speed 7 under the main8 radii and cap, with the
    weights of main1.py. *)
Lemma main1_apply_rules_caps_speed_witness :
  exists self' : Boid,
    Main1.apply_rules main8 0.1 0.05 3
      [new_boid (Vector2.mk 100 100) (Vector2.mk 7 0)] 0
      (new_boid (Vector2.mk 100 100) (Vector2.mk 7 0))
    = Ok self'
    /\ Vector2.length (velocity self') <= 5.
Proof.
  assert (Hrun : exists self' : Boid,
             Main1.apply_rules main8 0.1 0.05 3
               [new_boid (Vector2.mk 100 100) (Vector2.mk 7 0)] 0
               (new_boid (Vector2.mk 100 100) (Vector2.mk 7 0))
             = Ok self').
  { unfold Main1.apply_rules. cbn [rules_loop]. rewrite rules_step_self.
    cbn [bind total no_flock Nat.ltb Nat.leb velocity new_boid].
    rewrite length_horizontal, (Rabs_pos_eq 7) by lra.
    rewrite fgt_true by (simpl; lra).
    rewrite normalize_horizontal by lra. cbn [bind]. eexists. reflexivity. }
  destruct Hrun as [self' Hrun]. exists self'. split; [exact Hrun |].
  assert (Hmax : 0 <= MAX_SPEED main8) by (simpl; lra).
  exact (proj1 (main1_apply_rules_caps_speed main8 0.1 0.05 3 _ 0 _ self'
                  Hmax Hrun)).
Defined.



(** X21.  main3.py regulates the speed from the speed it measures after
    the cap: for 0 <= START_SPEED <= MAX_SPEED and an adjustment factor in
    [0,1], whenever [apply_rules] returns, the agent's speed is at most
    MAX_SPEED, however large the flocking terms were. *)
Theorem main3_apply_rules_caps_speed (cfg : Config) (boids : list Boid)
  (i : nat) (self self' : Boid) :
  0 <= START_SPEED cfg <= MAX_SPEED cfg ->
  0 <= SPEED_ADJUSTMENT_FACTOR cfg <= 1 ->
  Main3.apply_rules cfg boids i self = Ok self' ->
  Vector2.length (velocity self') <= MAX_SPEED cfg.
Proof.
  intros Hstart Hfactor. unfold Main3.apply_rules.
  destruct (rules_loop cfg self i 0 boids no_flock) as [acc | e];
    [| discriminate]. cbn [bind].
  match goal with
  | |- context [bind ?c _] => destruct c as [pushed | e]
  end; [| discriminate]. cbn [bind].
  destruct (if fgt (Vector2.length (velocity pushed)) (MAX_SPEED cfg)
            then let* unit := Vector2.normalize (velocity pushed) in
                 Ok (set_velocity pushed (Vector2.mul unit (MAX_SPEED cfg)))
            else Ok pushed) as [capped | e] eqn:Hcapped; [| discriminate].
  cbn [bind].
  assert (Hle : Vector2.length (velocity capped) <= MAX_SPEED cfg).
  { apply (cap_speed (velocity pushed) (MAX_SPEED cfg)); [lra |].
    destruct (fgt _ _).
    - destruct (Vector2.normalize (velocity pushed)); [| discriminate].
      cbn [bind] in *. now injection Hcapped as <-.
    - now injection Hcapped as <-. }
  pose proof (length_nonneg (velocity capped)) as Hpos.
  destruct (fne (Vector2.length (velocity capped)) 0).
  - destruct (Vector2.normalize (velocity capped)) as [unit | e] eqn:Hunit;
      [| discriminate]. cbn [bind]. intros [= <-].
    cbn [velocity set_velocity].
    rewrite length_mul, (normalize_unit _ _ Hunit).
    rewrite Rabs_pos_eq by nra. nra.
  - intros [= <-]. exact Hle.
Qed.

(** A lone agent flying at speed 7 under the main8 constants: capped to 5
    and relaxed to 5 + (2.25 - 5) * 0.3. *)
Lemma main3_apply_rules_caps_speed_witness :
  exists self' : Boid,
    Main3.apply_rules main8
      [new_boid (Vector2.mk 100 100) (Vector2.mk 7 0)] 0
      (new_boid (Vector2.mk 100 100) (Vector2.mk 7 0))
    = Ok self'
    /\ Vector2.length (velocity self') <= 5.
Proof.
  assert (Hrun : exists self' : Boid,
             Main3.apply_rules main8
               [new_boid (Vector2.mk 100 100) (Vector2.mk 7 0)] 0
               (new_boid (Vector2.mk 100 100) (Vector2.mk 7 0))
             = Ok self').
  { unfold Main3.apply_rules. cbn [rules_loop]. rewrite rules_step_self.
    cbn [bind total no_flock Nat.ltb Nat.leb velocity new_boid].
    rewrite length_horizontal, (Rabs_pos_eq 7) by lra.
    rewrite fgt_true by (simpl; lra).
    rewrite normalize_horizontal by lra.
    cbn [bind velocity set_velocity MAX_SPEED main8].
    replace (Vector2.mul (Vector2.mk 1 0) 5) with (Vector2.mk 5 0)
      by (unfold Vector2.mul; cbn [Vector2.x Vector2.y]; f_equal; lra).
    rewrite length_horizontal, (Rabs_pos_eq 5) by lra.
    rewrite fne_true by lra.
    rewrite normalize_horizontal by lra. cbn [bind]. eexists. reflexivity. }
  destruct Hrun as [self' Hrun]. exists self'. split; [exact Hrun |].
  assert (Hs : 0 <= START_SPEED main8 <= MAX_SPEED main8) by (simpl; lra).
  assert (Hf : 0 <= SPEED_ADJUSTMENT_FACTOR main8 <= 1) by (simpl; lra).
  exact (main3_apply_rules_caps_speed main8 _ 0 _ self' Hs Hf Hrun).
Defined.

(** ** Colour interpolation *)

Lemma int_le (a : R) : 0 <= a -> IZR (int a) <= a.
Proof.
  intros Ha. unfold int. destruct (Rle_dec 0 a); [| contradiction].
  now destruct (base_Int_part a).
Qed.

(** X22.  [get_color] interpolates a channel from its base value toward
    255: for a base value in [0,255] and a factor in [0,1] the result lies
    between the base value and 255; it is the base value for the factor 0
    and 255 for the factor 1.  [clamp_color] leaves such a value as it is. *)
Theorem get_color_between (base_value : Z) (factor : R) :
  (0 <= base_value <= 255)%Z ->
  0 <= factor <= 1 ->
  (base_value <= get_color base_value factor <= 255)%Z
  /\ clamp_color (get_color base_value factor) = get_color base_value factor
  /\ get_color base_value 0 = base_value
  /\ get_color base_value 1 = 255%Z.
Proof.
  intros Hb Hf. unfold get_color.
  assert (Hspan : 0 <= IZR (255 - base_value)) by (apply IZR_le; lia).
  assert (Hlow : (0 <= int (IZR (255 - base_value) * factor))%Z)
    by (apply int_nonneg; nra).
  assert (Hhigh : (int (IZR (255 - base_value) * factor)
                   <= 255 - base_value)%Z).
  { apply le_IZR. eapply Rle_trans; [apply int_le; nra |]. nra. }
  split; [lia |]. split; [unfold clamp_color; lia |]. split.
  - rewrite Rmult_0_r, int_zero. lia.
  - rewrite Rmult_1_r, int_IZR by lia. lia.
Qed.

(** The base channel 50 of main8 at the factor one half. *)
Lemma get_color_between_witness :
  (50 <= get_color 50 0.5 <= 255)%Z.
Proof.
  apply (get_color_between 50 0.5); [lia | lra].
Defined.
